(** * Trusted SOS backend of khidmaty-mobile: a shallow embedding.

    The cloud functions [sendSos] and [setMyPhoneNumber]
    (src/screens/IncomingSosScreen.tsx, server part) and the client-side
    trust-graph writes ([createRequest], [cancelRequest] in the trusted
    contacts screen, [respond] in IncomingRequestsScreen.tsx), modelled
    over an explicit Firestore store. *)

From Stdlib Require Import ZArith String Ascii Bool Lia.
From stdpp Require Import base gmap strings list.

Open Scope string_scope.
Open Scope list_scope.
Open Scope Z_scope.

(** ** Helpers shared by the cloud functions *)

(** JS [String.prototype.trim] on the ASCII whitespace characters
    (tab, LF, VT, FF, CR, space). *)
Definition is_ws (c : ascii) : bool :=
  let n := nat_of_ascii c in
  (Nat.eqb n 32 || (Nat.leb 9 n && Nat.leb n 13))%bool.

Fixpoint drop_ws (l : list ascii) : list ascii :=
  match l with
  | [] => []
  | c :: r => if is_ws c then drop_ws r else l
  end.

Definition trim (s : string) : string :=
  string_of_list_ascii
    (rev (drop_ws (rev (drop_ws (list_ascii_of_string s))))).

(** [cleanString(v)]: a non-string value (here [None]) reads as [""]. *)
Definition cleanString (v : option string) : string :=
  match v with
  | Some s => trim s
  | None => ""
  end.

(** JS truthiness of a string. *)
Definition truthy (s : string) : bool := negb (String.eqb s "").

(** [chunk(items, size)]: consecutive slices of [max 1 size] items. *)
Fixpoint chunk_fuel {A} (fuel n : nat) (items : list A) : list (list A) :=
  match fuel with
  | O => []
  | S f =>
      match items with
      | [] => []
      | _ => firstn n items :: chunk_fuel f n (skipn n items)
      end
  end.

Definition chunk {A} (items : list A) (size : nat) : list (list A) :=
  chunk_fuel (length items) (Nat.max 1 size) items.

(** Error codes of [HttpsError]; [Internal] is what the callable
    framework reports for any other rejected promise. *)
Inductive HttpsErrorCode :=
| Unauthenticated
| InvalidArgument
| ResourceExhausted
| NotFound
| PermissionDenied
| FailedPrecondition
| AlreadyExists
| Internal.

(** ** Firestore documents *)

(** [sos_rate/{uid}]. [count] holds the value of
    [Math.max(0, Math.trunc(Number(count)))] before the [max]: a
    non-finite stored count reads as 0. *)
Record RateDoc := mkRateDoc {
  windowStart : option Z;   (* millis of the stored Timestamp *)
  count : Z
}.

(** [sos_events/{id}]; coordinates are carried as opaque stored values. *)
Record SosEvent := mkSosEvent {
  senderUid : option string;
  message : option string;
  lat : option Z;
  lon : option Z;
  createdAt : option Z
}.

(** [users/{uid}] (the fields used here). *)
Record UserDoc := mkUserDoc {
  phone : option string;
  phoneUpdatedAt : option Z;
  userUpdatedAt : option Z
}.

(** [phone_index/{phone}]. *)
Record PhoneIndexDoc := mkPhoneIndexDoc {
  pi_uid : option string;
  pi_createdAt : option Z;
  pi_updatedAt : option Z
}.

(** [trusted/{owner}/contacts/{trusted}]: the owner's outgoing record. *)
Record ContactDoc := mkContactDoc {
  c_status : string;
  c_requestedAt : option Z;
  c_respondedAt : option Z;
  c_ownerUid : string;
  c_trustedUid : string;
  c_trustedEmail : option string;
  c_trustedPhone : option string
}.

(** [incoming/{trusted}/requests/{owner}]: the trusted account's
    incoming record. *)
Record RequestDoc := mkRequestDoc {
  r_status : string;
  r_requestedAt : option Z;
  r_respondedAt : option Z;
  r_ownerUid : string;
  r_trustedUid : string;
  r_ownerEmail : option string
}.

(** [devices/{uid}/tokens/{deviceId}]. *)
Record DeviceDoc := mkDeviceDoc {
  expoPushToken : option string;
  webPushToken : option string
}.

(** A document reference [devices/{uid}/tokens/{deviceId}]. *)
Abbreviation DocRef := (string * string)%type.

Record Store := mkStore {
  users : gmap string UserDoc;
  phone_index : gmap string PhoneIndexDoc;
  sos_rate : gmap string RateDoc;
  sos_events : gmap string SosEvent;
  trusted : gmap (string * string) ContactDoc;    (* key (owner, trusted) *)
  incoming : gmap (string * string) RequestDoc;   (* key (trusted, owner) *)
  devices : gmap DocRef DeviceDoc                 (* key (uid, deviceId) *)
}.

Definition set_users (s : Store) m :=
  mkStore m (phone_index s) (sos_rate s) (sos_events s) (trusted s) (incoming s) (devices s).
Definition set_phone_index (s : Store) m :=
  mkStore (users s) m (sos_rate s) (sos_events s) (trusted s) (incoming s) (devices s).
Definition set_sos_rate (s : Store) m :=
  mkStore (users s) (phone_index s) m (sos_events s) (trusted s) (incoming s) (devices s).
Definition set_trust (s : Store) mt mi :=
  mkStore (users s) (phone_index s) (sos_rate s) (sos_events s) mt mi (devices s).
Definition set_devices (s : Store) m :=
  mkStore (users s) (phone_index s) (sos_rate s) (sos_events s) (trusted s) (incoming s) m.

(** ** Rate limit transaction of [sendSos] *)

Definition windowMs : Z := 30 * 60 * 1000.

(** The body of the [db.runTransaction] on [sos_rate/{senderUid}]:
    [inl] is the thrown error, [inr] the document written back. *)
Definition rate_tx (now : Z) (snap : option RateDoc) : HttpsErrorCode + RateDoc :=
  let ws := match snap with
            | Some d => match windowStart d with Some w => w | None => now end
            | None => now
            end in
  let countRaw := match snap with Some d => count d | None => 0 end in
  let cnt := Z.max 0 countRaw in
  let withinWindow := now - ws <? windowMs in
  let nextWindowStart := if withinWindow then ws else now in
  let nextCount := if withinWindow then cnt + 1 else 1 in
  if (withinWindow && (3 <=? cnt))%bool then inl ResourceExhausted
  else inr (mkRateDoc (Some nextWindowStart) nextCount).

(** The transaction against the store: on error nothing is written. *)
Definition rate_limit_step (s : Store) (uid : string) (now : Z) : HttpsErrorCode + Store :=
  match rate_tx now (sos_rate s !! uid) with
  | inl e => inl e
  | inr d => inr (set_sos_rate s (<[uid := d]> (sos_rate s)))
  end.

(** ** Push transports *)

(** The [data] object shared by both payloads: [{type: "sos", eventId}]. *)
Record SosData := mkSosData { data_type : string; data_eventId : string }.

(** [ExpoPushMessage] as built by [sendSos]. *)
Record ExpoPushMessage := mkExpoPushMessage {
  msg_to : string;
  msg_title : string;
  msg_body : string;
  msg_sound : string;
  msg_priority : string;
  msg_channelId : string;
  msg_data : SosData
}.

(** One element of the Expo reply's [data] array: its [status] and the
    string at [details.error], when present. *)
Record ExpoTicket := mkExpoTicket {
  ticket_status : option string;
  ticket_details_error : option string
}.

(** The Expo HTTP reply: [res.ok] false, or the [data] array
    ([Array.isArray(json?.data) ? json.data : []]). *)
Inductive ExpoReply :=
| ExpoHttpError
| ExpoData (data : list ExpoTicket).

(** The multicast message minus [tokens]: the data payload (all four
    values are strings) and the web-push urgency header. *)
Record FcmPayload := mkFcmPayload {
  fcm_type : string;
  fcm_eventId : string;
  fcm_title : string;
  fcm_body : string;
  fcm_urgency : string
}.

Record FcmResp := mkFcmResp {
  success : bool;
  error_code : option string      (* [err.code] when a string *)
}.

Record MulticastResult := mkMulticastResult {
  successCount : Z;
  responses : list FcmResp
}.

(** Entries of the [errors] arrays of the two senders. *)
Inductive PushError :=
| HttpError
| ExpoError (token : string) (details : ExpoTicket)
| FcmError (token : string) (code : string).

(** The calls made to the external collaborators, in order: the two
    push transports and the Firestore batch commits of the cleanup. *)
Inductive Effect :=
| ExpoCall (batch : list ExpoPushMessage)
| FcmCall (tokens : list string) (payload : FcmPayload)
| BatchCommit (refs : list DocRef).

Definition sos_title : string := "SOS Alert".   (* the emoji is dropped *)
Definition sos_body : string := "Tap to view location".

Definition expo_message (eventId t : string) : ExpoPushMessage :=
  mkExpoPushMessage t sos_title sos_body "default" "high" "sos"
    (mkSosData "sos" eventId).

Definition fcm_payload (eventId : string) : FcmPayload :=
  mkFcmPayload "sos" eventId sos_title sos_body "high".

(** A JS [Map<string, DocumentReference[]>] in insertion order. *)
Abbreviation TokenMap := (list (string * list DocRef)).

Section Transports.

(** The external collaborators: the Expo push endpoint, Firebase
    [sendEachForMulticast], and whether a Firestore batch deleting the
    given references commits. *)
Variable expo_send : list ExpoPushMessage -> ExpoReply.
Variable fcm_send : list string -> FcmPayload -> MulticastResult.
Variable commit_ok : list DocRef -> bool.

Definition ticket_ok (r : ExpoTicket) : bool :=
  match ticket_status r with Some st => String.eqb st "ok" | None => false end.

(** The inner loop over [data] of one Expo batch, from index [i]. *)
Fixpoint expo_data_loop (batch : list ExpoPushMessage) (i : nat)
    (data : list ExpoTicket) : Z * list PushError :=
  match data with
  | [] => (0, [])
  | r :: rest =>
      let '(ok, errs) := expo_data_loop batch (S i) rest in
      if ticket_ok r then (ok + 1, errs)
      else (ok, ExpoError (cleanString (option_map msg_to (nth_error batch i))) r :: errs)
  end.

Fixpoint expo_batches (batches : list (list ExpoPushMessage))
    : Z * list PushError * list Effect :=
  match batches with
  | [] => (0, [], [])
  | b :: rest =>
      let '(ok, errs, calls) := expo_batches rest in
      match expo_send b with
      | ExpoHttpError => (ok, HttpError :: errs, ExpoCall b :: calls)
      | ExpoData data =>
          let '(ok1, errs1) := expo_data_loop b 0 data in
          (ok1 + ok, errs1 ++ errs, ExpoCall b :: calls)
      end
  end.

(** [sendExpoPush(messages)]. *)
Definition sendExpoPush (messages : list ExpoPushMessage)
    : Z * list PushError * list Effect :=
  match messages with
  | [] => (0, [], [])
  | _ => expo_batches (chunk messages 100)
  end.

Fixpoint fcm_resp_loop (batch : list string) (i : nat) (rs : list FcmResp)
    : list PushError :=
  match rs with
  | [] => []
  | r :: rest =>
      let errs := fcm_resp_loop batch (S i) rest in
      if success r then errs
      else FcmError (default "" (nth_error batch i)) (default "" (error_code r)) :: errs
  end.

Fixpoint fcm_batches (eventId : string) (batches : list (list string))
    : Z * list PushError * list Effect :=
  match batches with
  | [] => (0, [], [])
  | b :: rest =>
      let '(ok, errs, calls) := fcm_batches eventId rest in
      let res := fcm_send b (fcm_payload eventId) in
      (successCount res + ok, fcm_resp_loop b 0 (responses res) ++ errs,
       FcmCall b (fcm_payload eventId) :: calls)
  end.

(** [sendFcmWebPush({tokens, eventId})]. *)
Definition sendFcmWebPush (tokens : list string) (eventId : string)
    : Z * list PushError * list Effect :=
  match tokens with
  | [] => (0, [], [])
  | _ => fcm_batches eventId (chunk tokens 500)
  end.

(** ** Token maps and cleanup *)

Definition map_get (m : TokenMap) (t : string) : list DocRef :=
  match find (fun kv => String.eqb kv.1 t) m with
  | Some kv => kv.2
  | None => []
  end.

(** [arr = m.get(t) || []; arr.push(ref); m.set(t, arr)]. *)
Fixpoint map_push (m : TokenMap) (t : string) (r : DocRef) : TokenMap :=
  match m with
  | [] => [(t, [r])]
  | (k, rs) :: m' =>
      if String.eqb k t then (k, rs ++ [r]) :: m' else (k, rs) :: map_push m' t r
  end.

(** A JS [Set<string>] in insertion order. *)
Definition set_add (s : list string) (t : string) : list string :=
  if existsb (String.eqb t) s then s else s ++ [t].

(** The token documents of one trusted account, cleaned and filtered. *)
Definition token_docs (dv : gmap DocRef DeviceDoc) (uid : string)
    : list (DocRef * string * string) :=
  filter (fun x => truthy x.1.2 || truthy x.2)
    (map (fun kv : DocRef * DeviceDoc =>
            (kv.1, cleanString (expoPushToken kv.2), cleanString (webPushToken kv.2)))
       (filter (fun kv : DocRef * DeviceDoc => kv.1.1 = uid) (map_to_list dv))).

Definition build_maps (entries : list (DocRef * string * string)) : TokenMap * TokenMap :=
  fold_left (fun acc x =>
      let '(ref, e, w) := x in
      let '(em, wm) := acc in
      (if truthy e then map_push em e ref else em,
       if truthy w then map_push wm w ref else wm))
    entries ([], []).

(** The invalid-token classification of the cleanup loops. *)
Definition expo_invalid_code (err : string) : bool :=
  String.eqb err "DeviceNotRegistered" || String.eqb err "InvalidCredentials".

Definition fcm_invalid_code (code : string) : bool :=
  String.eqb code "messaging/registration-token-not-registered"
  || String.eqb code "messaging/invalid-registration-token".

Definition invalid_expo (errs : list PushError) : list string :=
  fold_left (fun acc e =>
      match e with
      | ExpoError tok r =>
          let token := cleanString (Some tok) in
          if negb (truthy token) then acc
          else if expo_invalid_code (default "" (ticket_details_error r))
               then set_add acc token else acc
      | _ => acc
      end) errs [].

Definition invalid_web (errs : list PushError) : list string :=
  fold_left (fun acc e =>
      match e with
      | FcmError tok code =>
          let token := cleanString (Some tok) in
          if negb (truthy token) then acc
          else if fcm_invalid_code (cleanString (Some code))
               then set_add acc token else acc
      | _ => acc
      end) errs [].

(** The [for (const delChunk of chunk(refs, 450))] loop: each batch
    deletes its references atomically; a failed [await batch.commit()]
    rejects and ends the loop (and the call). *)
Fixpoint delete_batches (m : gmap DocRef DeviceDoc) (chunks : list (list DocRef))
    : gmap DocRef DeviceDoc * list Effect * option HttpsErrorCode :=
  match chunks with
  | [] => (m, [], None)
  | c :: rest =>
      if commit_ok c then
        let '(m', cs, r) := delete_batches (fold_left (fun m r => delete r m) c m) rest in
        (m', BatchCommit c :: cs, r)
      else (m, [BatchCommit c], Some Internal)
  end.

(** One [if (invalid.size > 0) { ... }] block. *)
Definition cleanup (m : gmap DocRef DeviceDoc) (tm : TokenMap) (invalid : list string)
    : gmap DocRef DeviceDoc * list Effect * option HttpsErrorCode :=
  match invalid with
  | [] => (m, [], None)
  | _ => delete_batches m (chunk (flat_map (map_get tm) invalid) 450)
  end.

Record DispatchResult := mkDispatchResult {
  sent : Z;
  recipients : Z;
  tokens : Z;
  expoTokens : Z;
  webTokens : Z;
  errors : Z
}.

(** The accepted contacts of [uid]:
    [trusted/{uid}/contacts where status == "accepted"], ids kept if truthy. *)
Definition accepted_contacts (tr : gmap (string * string) ContactDoc) (uid : string)
    : list string :=
  filter (fun t => truthy t = true)
    (map (fun kv : (string * string) * ContactDoc => kv.1.2)
       (filter (fun kv : (string * string) * ContactDoc =>
                  kv.1.1 = uid /\ c_status kv.2 = "accepted")
          (map_to_list tr))).

(** ** The [sendSos] callable *)

(** Steps 3 to 8 of [sendSos], after the ownership check: they read the
    [trusted] and [devices] collections only, and return the new
    [devices] collection, the effects, and the outcome. *)
Definition dispatch_fanout (tr : gmap (string * string) ContactDoc)
    (dv : gmap DocRef DeviceDoc) (uid eventId : string)
    : gmap DocRef DeviceDoc * list Effect * (HttpsErrorCode + DispatchResult) :=
  let trustedUids := accepted_contacts tr uid in
  match trustedUids with
  | [] => (dv, [], inr (mkDispatchResult 0 0 0 0 0 0))
  | _ =>
    let tokenDocs := map (token_docs dv) trustedUids in
    let '(expoTokenToRefs, webTokenToRefs) := build_maps (concat tokenDocs) in
    let expoTokens := map fst expoTokenToRefs in
    let webTokens := map fst webTokenToRefs in
    let messages := map (expo_message eventId) expoTokens in
    let '(expoOk, expoErrs, calls1) := sendExpoPush messages in
    let '(fcmOk, fcmErrs, calls2) := sendFcmWebPush webTokens eventId in
    let calls := calls1 ++ calls2 in
    let '(d1, cc1, r1) := cleanup dv expoTokenToRefs (invalid_expo expoErrs) in
    match r1 with
    | Some e => (d1, calls ++ cc1, inl e)
    | None =>
    let '(d2, cc2, r2) := cleanup d1 webTokenToRefs (invalid_web fcmErrs) in
    match r2 with
    | Some e => (d2, calls ++ cc1 ++ cc2, inl e)
    | None =>
      (d2, calls ++ cc1 ++ cc2,
       inr (mkDispatchResult (expoOk + fcmOk) (Z.of_nat (length trustedUids))
              (Z.of_nat (length expoTokens + length webTokens))
              (Z.of_nat (length expoTokens)) (Z.of_nat (length webTokens))
              (Z.of_nat (length expoErrs + length fcmErrs))))
    end
    end
  end.

(** [sendSos]. [auth] is [request.auth?.uid] (bound to [uid], the code's
    [senderUid]), [eventIdRaw] is [request.data?.eventId] (a non-string
    reads as [None]) and [now] is [Timestamp.now()] in millis. The result
    is the final store, the effects, and the thrown error or the returned
    value. *)
Definition sendSos (s : Store) (auth : option string) (eventIdRaw : option string)
    (now : Z) : Store * list Effect * (HttpsErrorCode + DispatchResult) :=
  match auth with
  | None => (s, [], inl Unauthenticated)
  | Some uid =>
  if negb (truthy uid) then (s, [], inl Unauthenticated) else
  let eventId := cleanString eventIdRaw in
  if negb (truthy eventId) then (s, [], inl InvalidArgument) else
  match rate_limit_step s uid now with
  | inl e => (s, [], inl e)
  | inr s1 =>
  match sos_events s1 !! eventId with
  | None => (s1, [], inl NotFound)
  | Some event =>
  if negb (String.eqb (cleanString (senderUid event)) uid)
  then (s1, [], inl PermissionDenied) else
  let '(d, calls, r) := dispatch_fanout (trusted s1) (devices s1) uid eventId in
  (set_devices s1 d, calls, r)
  end
  end
  end.

End Transports.

(** A sender's window is fresh at [now]: no document, or a stored window
    that started [windowMs] or more before [now]. *)
Definition rate_fresh (s : Store) (uid : string) (now : Z) : Prop :=
  match sos_rate s !! uid with
  | None => True
  | Some d => match windowStart d with
              | Some w => windowMs <= now - w
              | None => False
              end
  end.

Definition set_sos_events (s : Store) m :=
  mkStore (users s) (phone_index s) (sos_rate s) m (trusted s) (incoming s) (devices s).

(** The Expo messages and the web tokens handed to the transports in a
    list of effects. *)
Definition expo_sent (calls : list Effect) : list ExpoPushMessage :=
  concat (map (fun e => match e with ExpoCall b => b | _ => [] end) calls).
Definition web_sent (calls : list Effect) : list string :=
  concat (map (fun e => match e with FcmCall toks _ => toks | _ => [] end) calls).

(** An effect carries a push payload built from [eventId] and constants
    only. *)
Definition payload_of_id (eventId : string) (e : Effect) : Prop :=
  match e with
  | ExpoCall b => Forall (fun m => m = expo_message eventId (msg_to m)) b
  | FcmCall _ p => p = fcm_payload eventId
  | BatchCommit _ => True
  end.

(** The two halves of [build_maps]: the loop pushes each entry's
    record reference under its Expo token and under its web token. *)
Definition tok_expo (x : DocRef * string * string) : string := x.1.2.
Definition tok_web (x : DocRef * string * string) : string := x.2.

Definition push_tokens (proj : DocRef * string * string -> string)
    (entries : list (DocRef * string * string)) (m0 : TokenMap) : TokenMap :=
  fold_left (fun m x => if truthy (proj x) then map_push m (proj x) x.1.1 else m) entries m0.

(** The token entries a dispatch builds for the accepted contacts of
    [uid]. *)
Definition dispatch_entries (tr : gmap (string * string) ContactDoc)
    (dv : gmap DocRef DeviceDoc) (uid : string) : list (DocRef * string * string) :=
  concat (map (token_docs dv) (accepted_contacts tr uid)).

(** The intermediate values of one dispatch: the code's
    [expoTokenToRefs] and [webTokenToRefs], and the [errors] arrays
    returned by the two transports. *)
Definition expo_map tr dv uid : TokenMap := (build_maps (dispatch_entries tr dv uid)).1.
Definition web_map tr dv uid : TokenMap := (build_maps (dispatch_entries tr dv uid)).2.


(** ** [setMyPhoneNumber] *)

Definition is_digit (c : ascii) : bool :=
  let n := nat_of_ascii c in (Nat.leb 48 n && Nat.leb n 57)%bool.

(** [raw.replace(/[^\d]+/g, "")]. *)
Definition only_digits (s : string) : string :=
  string_of_list_ascii (List.filter is_digit (list_ascii_of_string s)).

(** [/^\+\d{8,15}$/.test(e164)]. *)
Definition e164_ok (e : string) : bool :=
  match e with
  | String c rest =>
      (Ascii.eqb c "+" && forallb is_digit (list_ascii_of_string rest)
       && Nat.leb 8 (String.length rest) && Nat.leb (String.length rest) 15)%bool
  | EmptyString => false
  end.

(** The server's [normalizePhone(v)]. *)
Definition normalizePhone (v : option string) : option string :=
  let raw := cleanString v in
  if negb (truthy raw) then None else
  let hasPlus := String.prefix "+" raw in
  let has00 := String.prefix "00" raw in
  let digits := only_digits raw in
  if negb (truthy digits) then None else
  let e164 :=
    if hasPlus then Some (String.append "+" digits)
    else if has00 then Some (String.append "+" (substring 2 (String.length digits - 2) digits))
    else None in
  match e164 with
  | None => None
  | Some e => if e164_ok e then Some e else None
  end.

(** [userSnap.get("phone")]. *)
Definition user_phone (u : UserDoc) : option string := phone u.

(** The body of the [db.runTransaction]: the two reads, the two checks,
    then the two writes. [users/{uid}] holds only the three fields the
    merge writes, so the merge replaces the modelled document. *)
Definition phone_tx (s : Store) (uid phone : string) (now : Z) : HttpsErrorCode + Store :=
  let userSnap := users s !! uid in
  let existingPhone := cleanString (userSnap ≫= user_phone) in
  if (truthy existingPhone && negb (String.eqb existingPhone phone))%bool
  then inl FailedPrecondition else
  let phoneSnap := phone_index s !! phone in
  let existingUid := cleanString (phoneSnap ≫= pi_uid) in
  if (truthy existingUid && negb (String.eqb existingUid uid))%bool
  then inl AlreadyExists else
  let pdoc :=
    match phoneSnap with
    | None => mkPhoneIndexDoc (Some uid) (Some now) (Some now)
    | Some p => mkPhoneIndexDoc (Some uid) (pi_createdAt p) (Some now)
    end in
  let s1 := set_phone_index s (<[phone := pdoc]> (phone_index s)) in
  inr (set_users s1 (<[uid := mkUserDoc (Some phone) (Some now) (Some now)]> (users s1))).

(** [setMyPhoneNumber]: the final store and the thrown error or the
    returned phone; a rejected transaction writes nothing. *)
Definition setMyPhoneNumber (s : Store) (auth phoneRaw : option string) (now : Z)
    : Store * (HttpsErrorCode + string) :=
  match auth with
  | None => (s, inl Unauthenticated)
  | Some uid =>
  if negb (truthy uid) then (s, inl Unauthenticated) else
  match normalizePhone phoneRaw with
  | None => (s, inl InvalidArgument)
  | Some phone =>
  match phone_tx s uid phone now with
  | inl e => (s, inl e)
  | inr s' => (s', inr phone)
  end
  end
  end.

(** ** The trust graph: [createRequest], [respond], [cancelRequest]

    Each operation writes one atomic batch; [now] is the commit time
    that every [serverTimestamp()] of the batch resolves to. *)

(** The normalised identifier typed by the owner. *)
Inductive Identifier :=
  | IdEmail (em : string)
  | IdPhone (phone : string).

(** The client-side failures, reported with [setError] before any write. *)
Inductive RequestError :=
  | NotSignedIn
  | NoUserFound
  | CannotAddSelf.

(** [uid && uid.trim() ? uid.trim() : null] on the lookup reply. *)
Definition lookup_uid (reply : option string) : option string :=
  match reply with
  | Some u => if truthy (trim u) then Some (trim u) else None
  | None => None
  end.

(** [createRequest()], from the resolved identifier on; [reply] is the
    [uid] field of the lookup endpoint's answer. *)
Definition createRequest (s : Store) (ownerUid : string) (ownerEmail : option string)
    (ident : Identifier) (reply : option string) (now : Z) : RequestError + Store :=
  if negb (truthy ownerUid) then inl NotSignedIn else
  match lookup_uid reply with
  | None => inl NoUserFound
  | Some trustedUid =>
  if String.eqb trustedUid ownerUid then inl CannotAddSelf else
  let '(trustedEmail, trustedPhone) :=
    match ident with IdEmail em => (Some em, None) | IdPhone ph => (None, Some ph) end in
  let ownerEmail' := match ownerEmail with
                     | Some e => if truthy e then Some e else None
                     | None => None
                     end in
  inr (set_trust s
         (<[(ownerUid, trustedUid) :=
              mkContactDoc "pending" (Some now) None ownerUid trustedUid trustedEmail trustedPhone]>
            (trusted s))
         (<[(trustedUid, ownerUid) :=
              mkRequestDoc "pending" (Some now) None ownerUid trustedUid ownerEmail']>
            (incoming s)))
  end.

Inductive Response := Accepted | Rejected.

Definition response_status (r : Response) : string :=
  match r with Accepted => "accepted" | Rejected => "rejected" end.

(** [respond(ownerUid, status)] by the signed-in trusted account [uid]:
    two [batch.update]s, and an update of a missing document fails the
    whole batch. [None] is a call that writes nothing. *)
Definition respond (s : Store) (uid ownerUid : string) (st : Response) (now : Z)
    : option Store :=
  if negb (truthy uid) then None else
  match incoming s !! (uid, ownerUid), trusted s !! (ownerUid, uid) with
  | Some rq, Some ct =>
      Some (set_trust s
        (<[(ownerUid, uid) :=
             mkContactDoc (response_status st) (c_requestedAt ct) (Some now)
               (c_ownerUid ct) (c_trustedUid ct) (c_trustedEmail ct) (c_trustedPhone ct)]>
           (trusted s))
        (<[(uid, ownerUid) :=
             mkRequestDoc (response_status st) (r_requestedAt rq) (Some now)
               (r_ownerUid rq) (r_trustedUid rq) (r_ownerEmail rq)]>
           (incoming s)))
  | _, _ => None
  end.

(** [cancelRequest(trustedUid)]: two [batch.delete]s. *)
Definition cancelRequest (s : Store) (ownerUid trustedUid : string) : Store :=
  if negb (truthy ownerUid) then s else
  set_trust s (delete (ownerUid, trustedUid) (trusted s))
    (delete (trustedUid, ownerUid) (incoming s)).

Inductive TrustOp :=
  | OpCreate (ownerUid : string) (ownerEmail : option string) (ident : Identifier)
      (reply : option string) (now : Z)
  | OpRespond (uid ownerUid : string) (st : Response) (now : Z)
  | OpCancel (ownerUid trustedUid : string).

(** One operation; a failed one leaves the store as it was. *)
Definition apply_op (s : Store) (op : TrustOp) : Store :=
  match op with
  | OpCreate o e i r now => match createRequest s o e i r now with inr s' => s' | inl _ => s end
  | OpRespond u o st now => match respond s u o st now with Some s' => s' | None => s end
  | OpCancel o t => cancelRequest s o t
  end.

Definition run_ops (s : Store) (ops : list TrustOp) : Store := fold_left apply_op ops s.

(** The two sides of every edge agree on status and timestamps, and
    exist together. *)
Definition edge_mirrored (c : option ContactDoc) (r : option RequestDoc) : Prop :=
  match c, r with
  | Some c, Some r =>
      c_status c = r_status r /\ c_requestedAt c = r_requestedAt r /\
      c_respondedAt c = r_respondedAt r
  | None, None => True
  | _, _ => False
  end.

Definition mirrored (s : Store) : Prop :=
  forall o t, edge_mirrored (trusted s !! (o, t)) (incoming s !! (t, o)).

Definition empty_store : Store := mkStore ∅ ∅ ∅ ∅ ∅ ∅ ∅.

(** ** [lookupUserByPhone] *)

(** The callable answers [{uid}] with [uid = cleanString(...)]: the empty
    string when the number is unclaimed. *)
Definition lookupUserByPhone (s : Store) (auth phoneRaw : option string)
    : HttpsErrorCode + string :=
  match auth with
  | None => inl Unauthenticated
  | Some uid =>
  if negb (truthy uid) then inl Unauthenticated else
  match normalizePhone phoneRaw with
  | None => inl InvalidArgument
  | Some phone => inr (cleanString (phone_index s !! phone ≫= pi_uid))
  end
  end.

(** ** Status shown by the request lists

    [String(data?.status || "pending")], then mapped onto the three
    shown states; used by both [TrustedContactsScreen] and
    [IncomingRequestsScreen]. *)
Definition row_status (raw : string) : string :=
  let statusRaw := if truthy raw then raw else "pending" in
  if String.eqb statusRaw "accepted" then "accepted"
  else if String.eqb statusRaw "rejected" then "rejected"
  else "pending".

(** ** The shake-to-SOS detector of [SosScreen]

    [shakeStateRef.current] and one accelerometer callback. A reading
    records whether a user is signed in ([userUidRef.current]), whether
    a send is in flight ([sendingRef.current]), whether the reading
    passes the magnitude test ([data] present, [g] finite and at least
    [SHAKE_G_THRESHOLD]), and [Date.now()]. *)
Record ShakeState := mkShakeState {
  sh_count : Z;
  lastShakeAt : Z;
  lastTriggerAt : Z
}.

Record ShakeReading := mkShakeReading {
  signedIn : bool;
  sendingNow : bool;
  strong : bool;
  nowMs : Z
}.

Definition SHAKE_WINDOW_MS : Z := 1400.
Definition SHAKE_DEBOUNCE_MS : Z := 350.
Definition COOLDOWN_MS : Z := 12000.

Definition shake_init : ShakeState := mkShakeState 0 0 0.

(** One callback: the new state and whether [sendSosRef.current()] is
    called. *)
Definition shake_step (s : ShakeState) (r : ShakeReading) : ShakeState * bool :=
  if negb (signedIn r) then (s, false) else
  if sendingNow r then (s, false) else
  if negb (strong r) then (s, false) else
  let now := nowMs r in
  if now - lastTriggerAt s <? COOLDOWN_MS then (s, false) else
  if now - lastShakeAt s <? SHAKE_DEBOUNCE_MS then (s, false) else
  let c0 := if SHAKE_WINDOW_MS <? now - lastShakeAt s then 0 else sh_count s in
  let c1 := c0 + 1 in
  if c1 <? 2 then (mkShakeState c1 now (lastTriggerAt s), false)
  else (mkShakeState 0 now now, true).

(** A sequence of callbacks: the final state and the times at which
    an SOS was triggered. *)
Fixpoint shake_run (s : ShakeState) (rs : list ShakeReading) : ShakeState * list Z :=
  match rs with
  | [] => (s, [])
  | r :: rest =>
      let '(s1, fired) := shake_step s r in
      let '(s2, ts) := shake_run s1 rest in
      (s2, if fired then nowMs r :: ts else ts)
  end.

(** Trigger times, each at least [COOLDOWN_MS] after the previous one
    (the first after [last]). *)
Fixpoint spaced (last : Z) (ts : list Z) : Prop :=
  match ts with
  | [] => True
  | t :: rest => COOLDOWN_MS <= t - last /\ spaced t rest
  end.

(** Phones bound to their claimers: every account's stored phone names
    it back in [phone_index]. *)
Definition phone_bound (s : Store) : Prop :=
  forall u p, users s !! u ≫= user_phone = Some p -> truthy p = true ->
    phone_index s !! p ≫= pi_uid = Some u.

(** The uids stored in [phone_index] are trimmed and non-empty. *)
Definition index_ok (s : Store) : Prop :=
  forall p d u, phone_index s !! p = Some d -> pi_uid d = Some u -> trim u = u /\ truthy u = true.

(** A reading that passes the three early returns of the listener. *)
Definition accepted_reading (r : ShakeReading) : bool :=
  (signedIn r && negb (sendingNow r) && strong r)%bool.

(** The detector's pending count is 0, or 1 with the pending shake time
    that of an accepted reading of the history [hist]. *)
Definition shake_inv (s : ShakeState) (hist : list ShakeReading) : Prop :=
  sh_count s = 0 \/
  (sh_count s = 1 /\ exists r, In r hist /\ accepted_reading r = true /\ nowMs r = lastShakeAt s).

(** ** A concrete deployment used by the witnesses

    Account A owns event [ev1] and trusts B (accepted on both sides); B
    has two devices whose Expo tokens clean to the same string ["tokB"],
    the second also holding the web token ["webB"]. *)
Definition s_demo : Store :=
  mkStore ∅ ∅ ∅
    {[ "ev1" := mkSosEvent (Some "A") (Some "help") (Some 3288) (Some 1319) (Some 0) ]}
    {[ ("A", "B") := mkContactDoc "accepted" (Some 0) (Some 1) "A" "B" None None ]}
    {[ ("B", "A") := mkRequestDoc "accepted" (Some 0) (Some 1) "A" "B" None ]}
    {[ ("B", "d1") := mkDeviceDoc (Some " tokB ") None;
       ("B", "d2") := mkDeviceDoc (Some "tokB") (Some "webB") ]}.

(** Transport behaviours: every ticket ok; every ticket
    [DeviceNotRegistered]; every web push delivered; every web push
    failing with a transient code. *)
Definition expo_all_ok (b : list ExpoPushMessage) : ExpoReply :=
  ExpoData (map (fun _ => mkExpoTicket (Some "ok") None) b).
Definition expo_all_dead (b : list ExpoPushMessage) : ExpoReply :=
  ExpoData (map (fun _ => mkExpoTicket (Some "error") (Some "DeviceNotRegistered")) b).
Definition fcm_all_ok (b : list string) (p : FcmPayload) : MulticastResult :=
  mkMulticastResult (Z.of_nat (length b)) (map (fun _ => mkFcmResp true None) b).

(** A dispatch for a missing event, and a dispatch whose cleanup
    batch is refused. *)
Definition demo_notfound :=
  sendSos expo_all_ok fcm_all_ok (fun _ => true) s_demo (Some "A") (Some "nope") 100.
Definition demo_commit_refused :=
  sendSos expo_all_dead fcm_all_ok (fun _ => false) s_demo (Some "A") (Some "ev1") 100.

(** A dispatch in which every push is delivered. *)
Definition demo_ok :=
  sendSos expo_all_ok fcm_all_ok (fun _ => true) s_demo (Some "A") (Some "ev1") 100.


(** * Properties *)

(** ** Rate limit *)

Lemma rate_tx_fresh s uid now :
  rate_fresh s uid now ->
  rate_tx now (sos_rate s !! uid) = inr (mkRateDoc (Some now) 1).
Proof.
  unfold rate_fresh, rate_tx.
  destruct (sos_rate s !! uid) as [[[w|] c]|]; simpl; intros H; try done.
  - destruct (Z.ltb_spec (now - w) windowMs); [lia | reflexivity].
  - replace (now - now) with 0 by lia. reflexivity.
Qed.

Lemma rate_tx_expired now d w :
  windowStart d = Some w -> windowMs <= now - w ->
  rate_tx now (Some d) = inr (mkRateDoc (Some now) 1).
Proof.
  intros Hw Hle. unfold rate_tx. rewrite Hw.
  destruct (Z.ltb_spec (now - w) windowMs); [lia | reflexivity].
Qed.

Lemma rate_tx_within now w c :
  now - w < windowMs -> 0 <= c < 3 ->
  rate_tx now (Some (mkRateDoc (Some w) c)) = inr (mkRateDoc (Some w) (c + 1)).
Proof.
  intros Hw Hc. unfold rate_tx; simpl.
  rewrite Z.max_r by lia.
  destruct (Z.ltb_spec (now - w) windowMs); [|lia].
  destruct (Z.leb_spec 3 c); [lia | reflexivity].
Qed.

Lemma rate_tx_full now w c :
  now - w < windowMs -> 3 <= c ->
  rate_tx now (Some (mkRateDoc (Some w) c)) = inl ResourceExhausted.
Proof.
  intros Hw Hc. unfold rate_tx; simpl.
  rewrite Z.max_r by lia.
  destruct (Z.ltb_spec (now - w) windowMs); [|lia].
  destruct (Z.leb_spec 3 c); [reflexivity | lia].
Qed.

(** What [rate_tx] writes: the count incremented within the window, or
    reset to 1 with the window restarted at [now]. *)
Lemma rate_tx_written now snap d :
  rate_tx now snap = inr d ->
  (windowStart d = Some now /\ count d = 1) \/
  (exists d0, snap = Some d0 /\ count d = Z.max 0 (count d0) + 1).
Proof.
  unfold rate_tx. intros H.
  destruct snap as [d0|]; [destruct (windowStart d0)|]; simpl in H;
    repeat match type of H with
           | context [if ?b then _ else _] => destruct b
           end; simpl in H; simplify_eq/=; eauto.
Qed.

(** The only error of the rate-limit step is [resource-exhausted]. *)
Lemma rate_limit_step_error s uid now e :
  rate_limit_step s uid now = inl e -> e = ResourceExhausted.
Proof.
  unfold rate_limit_step, rate_tx. intros H.
  repeat (case_match; simplify_eq/=); done.
Qed.

(** The only error of the cleanup is a rejected commit. *)
Lemma delete_batches_error co m cs m' es e :
  delete_batches co m cs = (m', es, Some e) -> e = Internal.
Proof.
  revert m m' es. induction cs as [|c cs IH]; intros m m' es; simpl; [congruence|].
  destruct (co c); [|congruence].
  destruct (delete_batches co _ cs) as [[m1 es1] r1] eqn:E.
  intros H; simplify_eq. eapply IH; eauto.
Qed.

Lemma cleanup_error co m tm inv m' es e :
  cleanup co m tm inv = (m', es, Some e) -> e = Internal.
Proof.
  unfold cleanup. destruct inv; [congruence | apply delete_batches_error].
Qed.

Lemma dispatch_fanout_error es fs co tr dv uid ev d cs e :
  dispatch_fanout es fs co tr dv uid ev = (d, cs, inl e) -> e = Internal.
Proof.
  unfold dispatch_fanout. intros H.
  repeat (case_match; simplify_eq/=);
    repeat match goal with
           | Hc : cleanup _ _ _ _ = (_, _, Some _) |- _ => apply cleanup_error in Hc
           end; congruence.
Qed.

(** A call that passes the rate-limit transaction commits its write,
    whatever the rest of the call does. *)
Lemma sendSos_rate_pass es fs co s uid ev now d :
  truthy uid = true -> truthy (cleanString ev) = true ->
  rate_tx now (sos_rate s !! uid) = inr d ->
  sos_rate (sendSos es fs co s (Some uid) ev now).1.1 = <[uid := d]> (sos_rate s) /\
  (sendSos es fs co s (Some uid) ev now).2 <> inl ResourceExhausted.
Proof.
  intros Hu He Hr. unfold sendSos. rewrite Hu, He; simpl.
  unfold rate_limit_step. rewrite Hr.
  destruct (sos_events _ !! _); simpl; [|split; [reflexivity | congruence]].
  destruct (negb _); simpl; [split; [reflexivity | congruence]|].
  destruct (dispatch_fanout _ _ _ _ _ _ _) as [[dv cs] [e|res]] eqn:E; simpl;
    (split; [reflexivity|]); [|congruence].
  apply dispatch_fanout_error in E. congruence.
Qed.

(** A call refused by the rate-limit transaction changes nothing and
    sends nothing. *)
Lemma sendSos_rate_block es fs co s uid ev now e :
  truthy uid = true -> truthy (cleanString ev) = true ->
  rate_tx now (sos_rate s !! uid) = inl e ->
  sendSos es fs co s (Some uid) ev now = (s, [], inl e).
Proof.
  intros Hu He Hr. unfold sendSos. rewrite Hu, He; simpl.
  unfold rate_limit_step. rewrite Hr. reflexivity.
Qed.

(** The three outcomes of [sendSos]: nothing written and nothing sent;
    only the rate document written; or the rate document written and the
    dispatch run on the caller's own event. *)
Lemma sendSos_cases es fs co s auth ev now s' calls r :
  sendSos es fs co s auth ev now = (s', calls, r) ->
  (s' = s /\ calls = [] /\ exists e, r = inl e) \/
  (exists uid d, auth = Some uid /\ truthy uid = true /\
     rate_tx now (sos_rate s !! uid) = inr d /\
     s' = set_sos_rate s (<[uid := d]> (sos_rate s)) /\ calls = [] /\ exists e, r = inl e) \/
  (exists uid d event dv', auth = Some uid /\ truthy uid = true /\
     rate_tx now (sos_rate s !! uid) = inr d /\
     sos_events s !! cleanString ev = Some event /\
     cleanString (senderUid event) = uid /\
     dispatch_fanout es fs co (trusted s) (devices s) uid (cleanString ev) = (dv', calls, r) /\
     s' = set_devices (set_sos_rate s (<[uid := d]> (sos_rate s))) dv').
Proof.
  unfold sendSos. intros H.
  destruct auth as [uid|]; [|simplify_eq; eauto].
  destruct (truthy uid) eqn:Hu; simpl in H; [|simplify_eq; eauto].
  destruct (truthy (cleanString ev)) eqn:He; simpl in H; [|simplify_eq; eauto].
  unfold rate_limit_step in H.
  destruct (rate_tx now (sos_rate s !! uid)) as [e|d] eqn:Hr; [simplify_eq; eauto|].
  simpl in H.
  destruct (sos_events s !! cleanString ev) as [event|] eqn:Hev;
    [|simplify_eq; right; left; eauto 10].
  destruct (String.eqb (cleanString (senderUid event)) uid) eqn:Hs; simpl in H;
    [|simplify_eq; right; left; eauto 10].
  apply String.eqb_eq in Hs.
  destruct (dispatch_fanout es fs co _ _ uid (cleanString ev)) as [[dv' cs] r'] eqn:Hd.
  injection H as <- <- <-. right. right. exists uid, d, event, dv'. simpl in Hd. eauto 10.
Qed.

(** C1. Rate limit, 3 calls per 30-minute window: from a fresh window,
    three dispatch calls within 30 minutes of the first pass the
    rate-limit step and store the counts 1, 2, 3 in the window opened by
    the first; a 4th call in that window fails [resource-exhausted] and
    changes nothing; and any call made 30 minutes or more after the
    stored window start passes with the window reset to [{now, 1}]. *)
Theorem rate_limit_three_per_window es fs co (s0 : Store) (uid : string)
    (ev1 ev2 ev3 ev4 : option string) (t1 t2 t3 t4 : Z) :
  truthy uid = true ->
  truthy (cleanString ev1) = true -> truthy (cleanString ev2) = true ->
  truthy (cleanString ev3) = true -> truthy (cleanString ev4) = true ->
  rate_fresh s0 uid t1 ->
  t2 - t1 < windowMs -> t3 - t1 < windowMs -> t4 - t1 < windowMs ->
  let '(s1, _, r1) := sendSos es fs co s0 (Some uid) ev1 t1 in
  let '(s2, _, r2) := sendSos es fs co s1 (Some uid) ev2 t2 in
  let '(s3, _, r3) := sendSos es fs co s2 (Some uid) ev3 t3 in
  (sos_rate s1 !! uid = Some (mkRateDoc (Some t1) 1) /\ r1 <> inl ResourceExhausted) /\
  (sos_rate s2 !! uid = Some (mkRateDoc (Some t1) 2) /\ r2 <> inl ResourceExhausted) /\
  (sos_rate s3 !! uid = Some (mkRateDoc (Some t1) 3) /\ r3 <> inl ResourceExhausted) /\
  sendSos es fs co s3 (Some uid) ev4 t4 = (s3, [], inl ResourceExhausted) /\
  (forall (s : Store) (ev : option string) (now : Z) (d : RateDoc) (w : Z),
     truthy (cleanString ev) = true ->
     sos_rate s !! uid = Some d -> windowStart d = Some w -> windowMs <= now - w ->
     sos_rate (sendSos es fs co s (Some uid) ev now).1.1 !! uid
       = Some (mkRateDoc (Some now) 1) /\
     (sendSos es fs co s (Some uid) ev now).2 <> inl ResourceExhausted).
Proof.
  intros Hu H1 H2 H3 H4 Hf Ht2 Ht3 Ht4.
  destruct (sendSos_rate_pass es fs co s0 uid ev1 t1 _ Hu H1 (rate_tx_fresh _ _ _ Hf))
    as [Hs1 Hr1].
  destruct (sendSos es fs co s0 (Some uid) ev1 t1) as [[s1 c1] r1]; cbn -[sendSos] in *.
  assert (E1 : sos_rate s1 !! uid = Some (mkRateDoc (Some t1) 1))
    by (rewrite Hs1; apply lookup_insert_eq).
  assert (R2 : rate_tx t2 (sos_rate s1 !! uid) = inr (mkRateDoc (Some t1) 2))
    by (rewrite E1; apply (rate_tx_within t2 t1 1); lia).
  destruct (sendSos_rate_pass es fs co s1 uid ev2 t2 _ Hu H2 R2) as [Hs2 Hr2].
  destruct (sendSos es fs co s1 (Some uid) ev2 t2) as [[s2 c2] r2]; cbn -[sendSos] in *.
  assert (E2 : sos_rate s2 !! uid = Some (mkRateDoc (Some t1) 2))
    by (rewrite Hs2; apply lookup_insert_eq).
  assert (R3 : rate_tx t3 (sos_rate s2 !! uid) = inr (mkRateDoc (Some t1) 3))
    by (rewrite E2; apply (rate_tx_within t3 t1 2); lia).
  destruct (sendSos_rate_pass es fs co s2 uid ev3 t3 _ Hu H3 R3) as [Hs3 Hr3].
  destruct (sendSos es fs co s2 (Some uid) ev3 t3) as [[s3 c3] r3]; cbn -[sendSos] in *.
  assert (E3 : sos_rate s3 !! uid = Some (mkRateDoc (Some t1) 3))
    by (rewrite Hs3; apply lookup_insert_eq).
  refine (conj (conj E1 Hr1) (conj (conj E2 Hr2) (conj (conj E3 Hr3) (conj _ _)))).
  - apply sendSos_rate_block; [done | done |].
    rewrite E3. apply rate_tx_full; lia.
  - intros s ev now d w Hev Hd Hw Hle.
    assert (R : rate_tx now (sos_rate s !! uid) = inr (mkRateDoc (Some now) 1))
      by (rewrite Hd; eapply rate_tx_expired; eauto).
    destruct (sendSos_rate_pass es fs co s uid ev now _ Hu Hev R) as [Hs Hr].
    split; [rewrite Hs; apply lookup_insert_eq | exact Hr].
Qed.

(** C10. A dispatch that passes the rate-limit step and then fails with
    [not-found] or [permission-denied] has still committed its rate
    window write (count incremented, or reset to 1): the final store is
    the input store with that write, nothing is rolled back and nothing
    is sent. *)
Theorem failed_dispatch_consumes_rate_budget es fs co (s s' : Store) (uid : string)
    (ev : option string) (now : Z) (calls : list Effect) (e : HttpsErrorCode) :
  sendSos es fs co s (Some uid) ev now = (s', calls, inl e) ->
  e = NotFound \/ e = PermissionDenied ->
  exists d,
    rate_tx now (sos_rate s !! uid) = inr d /\
    s' = set_sos_rate s (<[uid := d]> (sos_rate s)) /\ calls = [] /\
    ((windowStart d = Some now /\ count d = 1) \/
     (exists d0, sos_rate s !! uid = Some d0 /\ count d = Z.max 0 (count d0) + 1)).
Proof.
  intros H He. unfold sendSos in H.
  destruct (negb (truthy uid)); [simplify_eq/=; destruct He; discriminate|].
  destruct (negb (truthy (cleanString ev))); [simplify_eq/=; destruct He; discriminate|].
  destruct (rate_limit_step s uid now) as [e0|s1] eqn:Hr.
  { apply rate_limit_step_error in Hr. simplify_eq/=. destruct He; discriminate. }
  unfold rate_limit_step in Hr.
  destruct (rate_tx now (sos_rate s !! uid)) as [e1|d] eqn:Ht; [discriminate|].
  injection Hr as <-.
  exists d. split; [done|].
  assert (Hs : s' = set_sos_rate s (<[uid:=d]> (sos_rate s)) /\ calls = []).
  { destruct (sos_events _ !! _); [|simplify_eq/=; done].
    destruct (negb _); [simplify_eq/=; done|].
    destruct (dispatch_fanout _ _ _ _ _ _ _) as [[dv cs] r] eqn:E.
    cbv beta iota zeta in H. injection H as _ _ Hr'. subst r.
    apply dispatch_fanout_error in E. subst. destruct He; discriminate. }
  destruct Hs as [-> ->]. split; [done|]. split; [done|].
  eapply rate_tx_written; eauto.
Qed.

(** ** No recipients *)

Lemma accepted_contacts_nil (tr : gmap (string * string) ContactDoc) (uid : string) :
  (forall (t : string) (c : ContactDoc),
     tr !! (uid, t) = Some c -> c_status c <> "accepted") ->
  accepted_contacts tr uid = [].
Proof.
  intros Hnone. unfold accepted_contacts.
  destruct (filter _ (map_to_list tr)) as [|[[o t] c] l] eqn:E; [done|].
  exfalso.
  assert (Hin : ((o, t), c) ∈ filter (fun kv : (string * string) * ContactDoc =>
                  kv.1.1 = uid /\ c_status kv.2 = "accepted") (map_to_list tr))
    by (rewrite E; left).
  apply list_elem_of_filter in Hin as [[Ho Hst] Hin]; simpl in *; subst o.
  apply elem_of_map_to_list in Hin.
  exact (Hnone t c Hin Hst).
Qed.

(** C5. No recipients is success: an authenticated caller with a
    non-empty event id who passes the rate limit and owns the event, and
    who has no contact record with status "accepted", gets the normal
    result with every count 0 (sent, recipients, tokens, expoTokens,
    webTokens, errors), not an error, and nothing is sent. *)
Theorem no_recipients_is_success es fs co (s : Store) (uid : string)
    (ev : option string) (now : Z) (d : RateDoc) (event : SosEvent) :
  truthy uid = true -> truthy (cleanString ev) = true ->
  rate_tx now (sos_rate s !! uid) = inr d ->
  sos_events s !! cleanString ev = Some event ->
  cleanString (senderUid event) = uid ->
  (forall (t : string) (c : ContactDoc),
     trusted s !! (uid, t) = Some c -> c_status c <> "accepted") ->
  (sendSos es fs co s (Some uid) ev now).1.2 = [] /\
  (sendSos es fs co s (Some uid) ev now).2 = inr (mkDispatchResult 0 0 0 0 0 0).
Proof.
  intros Hu He Hr Hev Hsnd Hnone.
  pose proof (accepted_contacts_nil (trusted s) uid Hnone) as Hnil.
  unfold sendSos. rewrite Hu, He; simpl.
  unfold rate_limit_step. rewrite Hr. simpl.
  rewrite Hev, Hsnd, String.eqb_refl. simpl.
  unfold dispatch_fanout. rewrite Hnil. done.
Qed.

(** ** Cleanup failures *)

Definition is_commit (e : Effect) : bool :=
  match e with BatchCommit _ => true | _ => false end.

Lemma expo_batches_no_commit es bs :
  Forall (fun e => is_commit e = false) (expo_batches es bs).2.
Proof.
  induction bs as [|b bs IH]; simpl; [constructor|].
  destruct (expo_batches es bs) as [[ok errs] calls]; simpl in *.
  destruct (es b); [|destruct (expo_data_loop b 0 data)]; constructor; auto.
Qed.

Lemma fcm_batches_no_commit fs ev bs :
  Forall (fun e => is_commit e = false) (fcm_batches fs ev bs).2.
Proof.
  induction bs as [|b bs IH]; simpl; [constructor|].
  destruct (fcm_batches fs ev bs) as [[ok errs] calls]; simpl in *.
  constructor; auto.
Qed.

Lemma sendExpoPush_no_commit es msgs :
  Forall (fun e => is_commit e = false) (sendExpoPush es msgs).2.
Proof. destruct msgs; [constructor | apply expo_batches_no_commit]. Qed.

Lemma sendFcmWebPush_no_commit fs toks ev :
  Forall (fun e => is_commit e = false) (sendFcmWebPush fs toks ev).2.
Proof. destruct toks; [constructor | apply fcm_batches_no_commit]. Qed.

Lemma commit_not_in_app (xs ys : list Effect) c :
  Forall (fun e => is_commit e = false) xs ->
  In (BatchCommit c) (xs ++ ys) <-> In (BatchCommit c) ys.
Proof.
  intros Hx. rewrite in_app_iff. split; [|auto].
  intros [Hin|Hin]; [|done].
  rewrite List.Forall_forall in Hx. apply Hx in Hin. discriminate.
Qed.

(** The delete loop reports an error exactly when one of the commits it
    attempted was refused. *)
Lemma delete_batches_trace co m cs m' es r :
  delete_batches co m cs = (m', es, r) ->
  (r <> None <-> exists c, In (BatchCommit c) es /\ co c = false).
Proof.
  revert m m' es r. induction cs as [|c cs IH]; intros m m' es r; simpl.
  - intros H; simplify_eq. split; [done|]. intros (c & [] & _).
  - destruct (co c) eqn:Hc.
    + destruct (delete_batches co _ cs) as [[m1 es1] r1] eqn:E.
      intros H; simplify_eq. rewrite (IH _ _ _ _ E).
      split.
      * intros (c' & Hin & Hf). exists c'. split; [right|]; done.
      * intros (c' & [Heq|Hin] & Hf); [simplify_eq; congruence|eauto].
    + intros H; simplify_eq. split; [|done].
      intros _. exists c. split; [left|]; done.
Qed.

Lemma cleanup_trace co m tm inv m' es r :
  cleanup co m tm inv = (m', es, r) ->
  (r <> None <-> exists c, In (BatchCommit c) es /\ co c = false).
Proof.
  unfold cleanup. destruct inv.
  - intros H; simplify_eq. split; [done|]. intros (c & [] & _).
  - apply delete_batches_trace.
Qed.

(** C2 (as stated, refuted). A dispatch that reaches the cleanup with
    an invalid token whose deletion batch fails to commit does not
    return its result: it rejects with [internal]. *)
Lemma cleanup_failure_cex :
  (sendSos expo_all_dead fcm_all_ok (fun _ => false) s_demo (Some "A") (Some "ev1") 100).2
    = inl Internal.
Proof. vm_compute. reflexivity. Qed.

(** The fan-out ends in [internal] exactly when one of its commits was
    refused. *)
Lemma dispatch_fanout_commit_trace es fs co tr dv uid ev d calls r :
  dispatch_fanout es fs co tr dv uid ev = (d, calls, r) ->
  (r = inl Internal <-> exists c, In (BatchCommit c) calls /\ co c = false).
Proof.
  unfold dispatch_fanout. intros H.
  destruct (accepted_contacts tr uid) as [|u us].
  { simplify_eq. split; [done|]. intros (c & [] & _). }
  destruct (build_maps _) as [em wm].
  destruct (sendExpoPush es _) as [[eok eerrs] calls1] eqn:E1.
  destruct (sendFcmWebPush fs _ _) as [[fok ferrs] calls2] eqn:E2.
  pose proof (sendExpoPush_no_commit es (map (expo_message ev) (map fst em))) as N1.
  pose proof (sendFcmWebPush_no_commit fs (map fst wm) ev) as N2.
  rewrite E1 in N1. rewrite E2 in N2. simpl in N1, N2.
  assert (N12 : Forall (fun e => is_commit e = false) (calls1 ++ calls2))
    by (apply Forall_app; auto).
  destruct (cleanup co dv em _) as [[d1 cc1] r1] eqn:C1.
  pose proof (cleanup_trace _ _ _ _ _ _ _ C1) as T1.
  destruct r1 as [e1|].
  { apply cleanup_error in C1. cbv beta iota zeta in H. simplify_eq.
    setoid_rewrite commit_not_in_app; [|done].
    rewrite <- T1. split; done. }
  destruct (cleanup co d1 wm _) as [[d2 cc2] r2] eqn:C2.
  pose proof (cleanup_trace _ _ _ _ _ _ _ C2) as T2.
  assert (Hc : forall c, In (BatchCommit c) ((calls1 ++ calls2) ++ cc1 ++ cc2) <->
                         In (BatchCommit c) cc1 \/ In (BatchCommit c) cc2).
  { intros c. rewrite commit_not_in_app by done. apply in_app_iff. }
  assert (Hno1 : ~ exists c, In (BatchCommit c) cc1 /\ co c = false)
    by (intros Hx; apply T1 in Hx; done).
  destruct r2 as [e2|].
  - apply cleanup_error in C2. cbv beta iota zeta in H. simplify_eq.
    split; [|done]. intros _.
    destruct (proj1 T2 ltac:(done)) as (c & Hin & Hf).
    exists c. split; [|done]. rewrite Hc. auto.
  - cbv beta iota zeta in H. simplify_eq. split; [done|].
    intros (c & Hin & Hf). rewrite Hc in Hin.
    exfalso. destruct Hin as [Hin|Hin].
    + apply Hno1. eauto.
    + apply (proj2 T2 (ex_intro _ c (conj Hin Hf))). reflexivity.
Qed.


(** ** Batching and the effect trace *)

Lemma chunk_fuel_concat {A} (fuel n : nat) (l : list A) :
  (1 <= n)%nat -> (length l <= fuel)%nat -> concat (chunk_fuel fuel n l) = l.
Proof.
  revert l. induction fuel as [|f IH]; intros l Hn Hl; simpl.
  - destruct l; simpl in *; [done | lia].
  - destruct l as [|x l']; [done|]. simpl.
    rewrite IH; [apply firstn_skipn | done |].
    rewrite length_skipn. simpl in *. lia.
Qed.

Lemma chunk_concat {A} (l : list A) (n : nat) : concat (chunk l n) = l.
Proof. unfold chunk. apply chunk_fuel_concat; lia. Qed.

Lemma expo_batches_sent es bs :
  expo_sent (expo_batches es bs).2 = concat bs /\ web_sent (expo_batches es bs).2 = [].
Proof.
  induction bs as [|b bs IH]; simpl; [done|].
  destruct (expo_batches es bs) as [[ok errs] calls]; simpl in *.
  destruct (es b); [|destruct (expo_data_loop b 0 data)]; simpl;
    unfold expo_sent, web_sent in *; simpl; destruct IH as [-> ->]; done.
Qed.

Lemma fcm_batches_sent fs ev bs :
  expo_sent (fcm_batches fs ev bs).2 = [] /\ web_sent (fcm_batches fs ev bs).2 = concat bs.
Proof.
  induction bs as [|b bs IH]; simpl; [done|].
  destruct (fcm_batches fs ev bs) as [[ok errs] calls]; simpl in *.
  unfold expo_sent, web_sent in *; simpl; destruct IH as [-> ->]; done.
Qed.

Lemma sendExpoPush_sent es msgs :
  expo_sent (sendExpoPush es msgs).2 = msgs /\ web_sent (sendExpoPush es msgs).2 = [].
Proof.
  destruct msgs as [|m ms]; [done|]. unfold sendExpoPush.
  destruct (expo_batches_sent es (chunk (m :: ms) 100)) as [H1 H2].
  rewrite chunk_concat in H1. split; assumption.
Qed.

Lemma sendFcmWebPush_sent fs toks ev :
  expo_sent (sendFcmWebPush fs toks ev).2 = [] /\ web_sent (sendFcmWebPush fs toks ev).2 = toks.
Proof.
  destruct toks as [|t ts]; [done|]. unfold sendFcmWebPush.
  destruct (fcm_batches_sent fs ev (chunk (t :: ts) 500)) as [H1 H2].
  rewrite chunk_concat in H2. split; assumption.
Qed.

Lemma delete_batches_commits co m cs :
  Forall (fun e => is_commit e = true) (delete_batches co m cs).1.2.
Proof.
  revert m. induction cs as [|c cs IH]; intros m; simpl; [constructor|].
  destruct (co c); [|repeat constructor].
  specialize (IH (fold_left (fun m r => delete r m) c m)).
  destruct (delete_batches co _ cs) as [[m1 es1] r1]; simpl in *. constructor; auto.
Qed.

Lemma cleanup_commits co m tm inv :
  Forall (fun e => is_commit e = true) (cleanup co m tm inv).1.2.
Proof. unfold cleanup. destruct inv; [constructor | apply delete_batches_commits]. Qed.

Lemma commits_sent (cs : list Effect) :
  Forall (fun e => is_commit e = true) cs -> expo_sent cs = [] /\ web_sent cs = [].
Proof.
  induction 1 as [|e cs He _ [IH1 IH2]]; [done|].
  destruct e; try discriminate. unfold expo_sent, web_sent in *; simpl. auto.
Qed.

Lemma commits_payload ev (cs : list Effect) :
  Forall (fun e => is_commit e = true) cs -> Forall (payload_of_id ev) cs.
Proof.
  induction 1 as [|e cs He _ IH]; constructor; [|done].
  destruct e; try discriminate. exact I.
Qed.

Lemma expo_batches_payload es ev bs :
  (forall b m, In b bs -> In m b -> m = expo_message ev (msg_to m)) ->
  Forall (payload_of_id ev) (expo_batches es bs).2.
Proof.
  induction bs as [|b bs IH]; intros Hb; simpl; [constructor|].
  assert (Hrest : Forall (payload_of_id ev) (expo_batches es bs).2)
    by (apply IH; intros; eapply Hb; [right|]; eauto).
  assert (Hhead : payload_of_id ev (ExpoCall b)).
  { simpl. apply List.Forall_forall. intros m Hm. eapply Hb; [left|]; eauto. }
  destruct (expo_batches es bs) as [[ok errs] calls]; simpl in *.
  destruct (es b); [|destruct (expo_data_loop b 0 data)]; constructor; auto.
Qed.

Lemma fcm_batches_payload fs ev bs :
  Forall (payload_of_id ev) (fcm_batches fs ev bs).2.
Proof.
  induction bs as [|b bs IH]; simpl; [constructor|].
  destruct (fcm_batches fs ev bs) as [[ok errs] calls]; simpl in *.
  constructor; [reflexivity | done].
Qed.

Lemma sendExpoPush_payload es ev msgs :
  (forall m, In m msgs -> m = expo_message ev (msg_to m)) ->
  Forall (payload_of_id ev) (sendExpoPush es msgs).2.
Proof.
  intros Hm. destruct msgs as [|x xs]; [constructor|]. unfold sendExpoPush.
  apply expo_batches_payload. intros b m Hb Hin. apply Hm.
  rewrite <- (chunk_concat (x :: xs) 100). apply in_concat. eauto.
Qed.

Lemma sendFcmWebPush_payload fs toks ev :
  Forall (payload_of_id ev) (sendFcmWebPush fs toks ev).2.
Proof. destruct toks; [constructor | apply fcm_batches_payload]. Qed.

Lemma dispatch_fanout_payload es fs co tr dv uid ev :
  Forall (payload_of_id ev) (dispatch_fanout es fs co tr dv uid ev).1.2.
Proof.
  unfold dispatch_fanout.
  destruct (accepted_contacts tr uid) as [|u us]; [constructor|].
  destruct (build_maps _) as [em wm].
  pose proof (sendExpoPush_payload es ev (map (expo_message ev) (map fst em))) as P1.
  pose proof (sendFcmWebPush_payload fs (map fst wm) ev) as P2.
  destruct (sendExpoPush es _) as [[eok eerrs] calls1].
  destruct (sendFcmWebPush fs _ _) as [[fok ferrs] calls2].
  simpl in P1, P2.
  assert (Q1 : Forall (payload_of_id ev) calls1).
  { apply P1. intros m Hm. apply in_map_iff in Hm as (t & <- & _). reflexivity. }
  pose proof (cleanup_commits co dv em (invalid_expo eerrs)) as C1.
  destruct (cleanup co dv em _) as [[d1 cc1] [e1|]]; simpl in C1.
  { simpl. apply Forall_app; split; [apply Forall_app; auto|].
    apply commits_payload; done. }
  pose proof (cleanup_commits co d1 wm (invalid_web ferrs)) as C2.
  destruct (cleanup co d1 wm _) as [[d2 cc2] [e2|]]; simpl in C2; simpl;
    (apply Forall_app; split; [apply Forall_app; auto|]);
    (apply Forall_app; split; apply commits_payload; done).
Qed.

(** ** Push payload *)

(** C8. Push-payload noninterference: every Expo message and every web
    push payload a dispatch hands to the transports is built from the
    event id and constants only; and two stores whose event under the
    requested id differs in anything but its sender (message, latitude,
    longitude, creation time) make identical transport calls and return
    the same outcome. *)
Theorem push_payload_noninterference es fs co (s : Store) (auth evid : option string)
    (now : Z) (e1 e2 : SosEvent) :
  senderUid e1 = senderUid e2 ->
  Forall (payload_of_id (cleanString evid)) (sendSos es fs co s auth evid now).1.2 /\
  ((sendSos es fs co (set_sos_events s (<[cleanString evid := e1]> (sos_events s)))
      auth evid now).1.2 =
   (sendSos es fs co (set_sos_events s (<[cleanString evid := e2]> (sos_events s)))
      auth evid now).1.2) /\
  ((sendSos es fs co (set_sos_events s (<[cleanString evid := e1]> (sos_events s)))
      auth evid now).2 =
   (sendSos es fs co (set_sos_events s (<[cleanString evid := e2]> (sos_events s)))
      auth evid now).2).
Proof.
  intros Hsnd. split.
  - unfold sendSos.
    destruct auth as [u|]; [|constructor].
    destruct (negb (truthy u)); [constructor|].
    destruct (negb (truthy (cleanString evid))); [constructor|].
    destruct (rate_limit_step s u now) as [e|s1]; [constructor|].
    destruct (sos_events s1 !! cleanString evid); [|constructor].
    destruct (negb _); [constructor|].
    pose proof (dispatch_fanout_payload es fs co (trusted s1) (devices s1) u (cleanString evid))
      as P.
    destruct (dispatch_fanout _ _ _ _ _ _ _) as [[d cs] r]. exact P.
  - unfold sendSos.
    destruct auth as [u|]; [|done].
    destruct (negb (truthy u)); [done|].
    destruct (negb (truthy (cleanString evid))); [done|].
    unfold rate_limit_step. simpl.
    destruct (rate_tx now (sos_rate s !! u)) as [e|rd]; simpl; [done|].
    rewrite !lookup_insert_eq, Hsnd.
    destruct (negb _); [done|].
    destruct (dispatch_fanout _ _ _ _ _ _ _) as [[d cs] r]. done.
Qed.

(** ** Token maps *)

Lemma map_get_push (m : TokenMap) t r k :
  map_get (map_push m t r) k = if String.eqb t k then map_get m k ++ [r] else map_get m k.
Proof.
  induction m as [|[k' rs] m' IH]; simpl.
  - unfold map_get; simpl. destruct (String.eqb t k); done.
  - destruct (String.eqb k' t) eqn:Ekt.
    + apply String.eqb_eq in Ekt as ->. unfold map_get; simpl.
      destruct (String.eqb t k); done.
    + unfold map_get in *; simpl.
      destruct (String.eqb k' k) eqn:Ekk; [|exact IH].
      apply String.eqb_eq in Ekk as ->.
      rewrite String.eqb_sym, Ekt. done.
Qed.

Lemma map_keys_push (m : TokenMap) t r k :
  In k (map fst (map_push m t r)) <-> k = t \/ In k (map fst m).
Proof.
  induction m as [|[k' rs] m' IH]; simpl; [intuition congruence|].
  destruct (String.eqb k' t) eqn:Ekt; simpl.
  - apply String.eqb_eq in Ekt as ->. intuition congruence.
  - rewrite IH. intuition congruence.
Qed.

Lemma map_keys_push_nodup (m : TokenMap) t r :
  List.NoDup (map fst m) -> List.NoDup (map fst (map_push m t r)).
Proof.
  induction m as [|[k' rs] m' IH]; simpl; intros Hnd.
  - constructor; [intros []|constructor].
  - inversion Hnd as [|? ? Hnin Hnd']; subst.
    destruct (String.eqb k' t) eqn:Ekt; simpl; [done|].
    constructor; [|auto].
    rewrite map_keys_push. intros [->|Hin]; [|done].
    rewrite String.eqb_refl in Ekt. discriminate.
Qed.

Lemma build_maps_split entries :
  build_maps entries = (push_tokens tok_expo entries [], push_tokens tok_web entries []).
Proof.
  unfold build_maps, push_tokens.
  generalize (@nil (string * list DocRef)) at 1 3.
  generalize (@nil (string * list DocRef)).
  induction entries as [|[[r e] w] entries IH]; intros a b; simpl; [done|].
  apply IH.
Qed.

Lemma push_tokens_get proj entries m0 k r :
  In r (map_get (push_tokens proj entries m0) k) <->
  In r (map_get m0 k) \/ (exists x, In x entries /\ x.1.1 = r /\ proj x = k /\ truthy k = true).
Proof.
  revert m0. induction entries as [|x entries IH]; intros m0; simpl.
  - split; [auto|]. intros [H|(x & [] & _)]. done.
  - rewrite IH. destruct (truthy (proj x)) eqn:Ht.
    + rewrite map_get_push. destruct (String.eqb (proj x) k) eqn:Ek.
      * apply String.eqb_eq in Ek. rewrite in_app_iff. simpl.
        split.
        -- intros [[H|[H|[]]]|(y & Hy & Hr & Hp & Hk)]; eauto 10.
           right. exists x. subst. auto.
        -- intros [H|(y & [->|Hy] & Hr & Hp & Hk)]; eauto 10.
      * split.
        -- intros [H|(y & Hy & Hr & Hp & Hk)]; eauto 10.
        -- intros [H|(y & [->|Hy] & Hr & Hp & Hk)]; eauto 10.
           subst. rewrite String.eqb_refl in Ek. discriminate.
    + split.
      * intros [H|(y & Hy & Hr & Hp & Hk)]; eauto 10.
      * intros [H|(y & [->|Hy] & Hr & Hp & Hk)]; eauto 10.
        subst. congruence.
Qed.

Lemma push_tokens_keys proj entries m0 k :
  In k (map fst (push_tokens proj entries m0)) <->
  In k (map fst m0) \/ (exists x, In x entries /\ proj x = k /\ truthy k = true).
Proof.
  revert m0. induction entries as [|x entries IH]; intros m0; simpl.
  - split; [auto|]. intros [H|(x & [] & _)]. done.
  - rewrite IH. destruct (truthy (proj x)) eqn:Ht.
    + rewrite map_keys_push. split.
      * intros [[->|H]|(y & Hy & Hp & Hk)]; eauto 10.
      * intros [H|(y & [->|Hy] & Hp & Hk)]; eauto 10.
    + split.
      * intros [H|(y & Hy & Hp & Hk)]; eauto 10.
      * intros [H|(y & [->|Hy] & Hp & Hk)]; eauto 10. subst. congruence.
Qed.

Lemma push_tokens_nodup proj entries m0 :
  List.NoDup (map fst m0) -> List.NoDup (map fst (push_tokens proj entries m0)).
Proof.
  revert m0. induction entries as [|x entries IH]; intros m0 Hnd; simpl; [done|].
  apply IH. destruct (truthy (proj x)); [apply map_keys_push_nodup|]; done.
Qed.

Lemma dispatch_entries_in tr dv uid x :
  In x (dispatch_entries tr dv uid) ->
  exists doc, dv !! x.1.1 = Some doc /\
    x.1.2 = cleanString (expoPushToken doc) /\ x.2 = cleanString (webPushToken doc).
Proof.
  unfold dispatch_entries. rewrite in_concat. intros (l & Hl & Hx).
  apply in_map_iff in Hl as (u & <- & _).
  unfold token_docs in Hx. apply list_elem_of_In in Hx.
  apply list_elem_of_filter in Hx as [_ Hx].
  apply list_elem_of_In, in_map_iff in Hx as ([k doc] & <- & Hk).
  apply list_elem_of_In in Hk. apply list_elem_of_filter in Hk as [_ Hk].
  apply elem_of_map_to_list in Hk. simpl. eauto.
Qed.

Lemma dispatch_entries_complete tr dv uid k doc :
  dv !! k = Some doc -> In k.1 (accepted_contacts tr uid) ->
  (truthy (cleanString (expoPushToken doc)) || truthy (cleanString (webPushToken doc)))%bool = true ->
  In (k, cleanString (expoPushToken doc), cleanString (webPushToken doc)) (dispatch_entries tr dv uid).
Proof.
  intros Hk Hu Ht. unfold dispatch_entries. apply in_concat.
  exists (token_docs dv k.1). split; [apply in_map; done|].
  unfold token_docs. apply list_elem_of_In, list_elem_of_filter. split; [simpl; rewrite Ht; done|].
  apply list_elem_of_In, in_map_iff. exists (k, doc). split; [done|].
  apply list_elem_of_In, list_elem_of_filter. split; [done|].
  apply elem_of_map_to_list. done.
Qed.

(** ** Deletion *)

Lemma fold_delete_none (c : list DocRef) (m : gmap DocRef DeviceDoc) k :
  m !! k = None -> fold_left (fun m r => delete r m) c m !! k = None.
Proof.
  revert m. induction c as [|r c IH]; intros m Hm; simpl; [done|].
  apply IH. destruct (decide (r = k)) as [->|Hne].
  - apply lookup_delete_eq.
  - rewrite lookup_delete_ne; done.
Qed.

Lemma fold_delete_in (c : list DocRef) (m : gmap DocRef DeviceDoc) k :
  In k c -> fold_left (fun m r => delete r m) c m !! k = None.
Proof.
  revert m. induction c as [|r c IH]; intros m Hin; simpl; [done|].
  destruct Hin as [->|Hin]; [|auto].
  apply fold_delete_none, lookup_delete_eq.
Qed.

Lemma fold_delete_notin (c : list DocRef) (m : gmap DocRef DeviceDoc) k :
  ~ In k c -> fold_left (fun m r => delete r m) c m !! k = m !! k.
Proof.
  revert m. induction c as [|r c IH]; intros m Hin; simpl; [done|].
  rewrite IH by (intros H; apply Hin; right; done).
  apply lookup_delete_ne. intros ->. apply Hin. left. done.
Qed.

(** The delete loop only removes references it was given. *)
Lemma delete_batches_lookup co m cs k :
  (delete_batches co m cs).1.1 !! k = m !! k \/
  ((delete_batches co m cs).1.1 !! k = None /\ In k (concat cs)).
Proof.
  revert m. induction cs as [|c cs IH]; intros m; simpl; [auto|].
  destruct (co c); [|auto].
  specialize (IH (fold_left (fun m r => delete r m) c m)).
  destruct (delete_batches co _ cs) as [[m1 es1] r1]; simpl in *.
  rewrite in_app_iff.
  destruct (In_dec (fun a b => decide (a = b)) k c) as [Hin|Hnin].
  - rewrite fold_delete_in in IH by done. destruct IH as [H|[H _]]; auto.
  - rewrite fold_delete_notin in IH by done. destruct IH as [H|[H Hin]]; auto.
Qed.


Lemma cleanup_lookup co m tm inv k :
  (cleanup co m tm inv).1.1 !! k = m !! k \/
  ((cleanup co m tm inv).1.1 !! k = None /\ exists t, In t inv /\ In k (map_get tm t)).
Proof.
  unfold cleanup. destruct inv as [|t0 inv']; [auto|].
  destruct (delete_batches_lookup co m (chunk (flat_map (map_get tm) (t0 :: inv')) 450) k)
    as [H|[H Hin]]; [auto|].
  right. split; [done|]. rewrite chunk_concat, in_flat_map in Hin. done.
Qed.


(** ** Classification *)










(** ** Deduplication *)

Lemma expo_sent_app (a b : list Effect) : expo_sent (a ++ b) = expo_sent a ++ expo_sent b.
Proof. unfold expo_sent. rewrite map_app, concat_app. done. Qed.

Lemma web_sent_app (a b : list Effect) : web_sent (a ++ b) = web_sent a ++ web_sent b.
Proof. unfold web_sent. rewrite map_app, concat_app. done. Qed.

(** What one dispatch hands to the transports: one Expo message per key
    of [expoTokenToRefs], and the keys of [webTokenToRefs]. *)
Lemma dispatch_fanout_sent es fs co tr dv uid ev d calls r :
  dispatch_fanout es fs co tr dv uid ev = (d, calls, r) ->
  expo_sent calls = map (expo_message ev) (map fst (expo_map tr dv uid)) /\
  web_sent calls = map fst (web_map tr dv uid).
Proof.
  intros H. unfold expo_map, web_map. rewrite build_maps_split. cbn [fst snd].
  unfold dispatch_fanout in H. cbv zeta in H. fold (dispatch_entries tr dv uid) in H.
  rewrite build_maps_split in H. cbv beta iota in H.
  destruct (accepted_contacts tr uid) as [|u us] eqn:Hacc.
  { assert (Hde : dispatch_entries tr dv uid = []) by (unfold dispatch_entries; rewrite Hacc; done).
    simplify_eq. rewrite Hde. done. }
  set (em := push_tokens tok_expo (dispatch_entries tr dv uid) []) in *.
  set (wm := push_tokens tok_web (dispatch_entries tr dv uid) []) in *.
  pose proof (sendExpoPush_sent es (map (expo_message ev) (map fst em))) as S1.
  pose proof (sendFcmWebPush_sent fs (map fst wm) ev) as S2.
  destruct (sendExpoPush es (map (expo_message ev) (map fst em))) as [[eok eerrs] calls1].
  destruct (sendFcmWebPush fs (map fst wm) ev) as [[fok ferrs] calls2].
  cbn [fst snd] in S1, S2. destruct S1 as [S1e S1w]. destruct S2 as [S2e S2w].
  cbv beta iota in H.
  pose proof (cleanup_commits co dv em (invalid_expo eerrs)) as K1.
  destruct (cleanup co dv em (invalid_expo eerrs)) as [[d1 cc1] r1].
  apply commits_sent in K1 as [K1e K1w]. cbn [fst snd] in K1e, K1w.
  destruct r1 as [e1|]; cbv beta iota in H.
  { simplify_eq. rewrite !expo_sent_app, !web_sent_app, S1e, S1w, S2e, S2w, K1e, K1w.
    rewrite !app_nil_r. done. }
  pose proof (cleanup_commits co d1 wm (invalid_web ferrs)) as K2.
  destruct (cleanup co d1 wm (invalid_web ferrs)) as [[d2 cc2] r2].
  apply commits_sent in K2 as [K2e K2w]. cbn [fst snd] in K2e, K2w.
  destruct r2 as [e2|]; cbv beta iota in H; simplify_eq;
    rewrite !expo_sent_app, !web_sent_app, S1e, S1w, S2e, S2w, K1e, K1w, K2e, K2w;
    rewrite !app_nil_r; done.
Qed.

(** C2 (amended). Cleanup is not best-effort: when one of the
    token-deletion batch commits of a call is refused, the call ends in
    the [internal] error with no result returned, although the Expo
    messages and web pushes of the dispatch were already sent. *)
Theorem cleanup_failure_fails_dispatch es fs co (s s' : Store) (auth ev : option string)
    (now : Z) (calls : list Effect) (r : HttpsErrorCode + DispatchResult) :
  sendSos es fs co s auth ev now = (s', calls, r) ->
  (exists c, In (BatchCommit c) calls /\ co c = false) ->
  r = inl Internal /\
  exists uid, auth = Some uid /\
    expo_sent calls = map (expo_message (cleanString ev)) (map fst (expo_map (trusted s) (devices s) uid)) /\
    web_sent calls = map fst (web_map (trusted s) (devices s) uid).
Proof.
  intros H Hc.
  apply sendSos_cases in H
    as [(_ & -> & _)|[(uid & d & _ & _ & _ & _ & -> & _)|(uid & d & event & dv' & -> & _ & _ & _ & _ & Hd & _)]];
    [destruct Hc as (c & [] & _)|destruct Hc as (c & [] & _)|].
  split.
  - apply (dispatch_fanout_commit_trace _ _ _ _ _ _ _ _ _ _ Hd). done.
  - exists uid. split; [done|]. apply (dispatch_fanout_sent _ _ _ _ _ _ _ _ _ _ Hd).
Qed.







(** ** The trust graph *)

Lemma pair_ne_swap (a b c d : string) : (a, b) <> (c, d) -> (b, a) <> (d, c).
Proof. intros H Heq. apply H. injection Heq as -> ->. done. Qed.

Lemma mirrored_create s o e i r now s' :
  mirrored s -> createRequest s o e i r now = inr s' -> mirrored s'.
Proof.
  intros Hm H. unfold createRequest in H.
  destruct (negb (truthy o)); [discriminate|].
  destruct (lookup_uid r) as [t|]; [|discriminate].
  destruct (String.eqb t o); [discriminate|].
  destruct (match i with IdEmail em => _ | IdPhone ph => _ end) as [te tp].
  simplify_eq. intros o' t'. simpl.
  destruct (decide ((o, t) = (o', t'))) as [Heq|Hne].
  - injection Heq as <- <-. rewrite !lookup_insert_eq. simpl. auto.
  - rewrite lookup_insert_ne by done.
    rewrite lookup_insert_ne by (apply pair_ne_swap; done). apply Hm.
Qed.

Lemma mirrored_respond s u o st now s' :
  mirrored s -> respond s u o st now = Some s' -> mirrored s'.
Proof.
  intros Hm H. unfold respond in H.
  destruct (negb (truthy u)); [discriminate|].
  destruct (incoming s !! (u, o)) as [rq|] eqn:Hr; [|discriminate].
  destruct (trusted s !! (o, u)) as [ct|] eqn:Hc; [|discriminate].
  simplify_eq. intros o' t'. simpl.
  destruct (decide ((o, u) = (o', t'))) as [Heq|Hne].
  - injection Heq as <- <-. rewrite !lookup_insert_eq. simpl.
    specialize (Hm o u). rewrite Hc, Hr in Hm. simpl in Hm. intuition.
  - rewrite lookup_insert_ne by done.
    rewrite lookup_insert_ne by (apply pair_ne_swap; done). apply Hm.
Qed.

Lemma mirrored_cancel s o t : mirrored s -> mirrored (cancelRequest s o t).
Proof.
  intros Hm. unfold cancelRequest. destruct (negb (truthy o)); [done|].
  intros o' t'. simpl.
  destruct (decide ((o, t) = (o', t'))) as [Heq|Hne].
  - injection Heq as <- <-. rewrite !lookup_delete_eq. simpl. done.
  - rewrite lookup_delete_ne by done.
    rewrite lookup_delete_ne by (apply pair_ne_swap; done). apply Hm.
Qed.

Lemma mirrored_empty : mirrored empty_store.
Proof. intros o t. exact I. Qed.

(** C6. Mirror invariant of the trust graph: from a store whose two
    sides agree (the empty store, for one), every sequence of
    [createRequest], [respond] and [cancelRequest] operations, each
    either committing its batch or writing nothing, leaves, for every
    owner and trusted account, either both the outgoing and the
    incoming record absent or both present with equal status,
    [requestedAt] and [respondedAt]. *)
Theorem trust_edges_mirrored (s : Store) (ops : list TrustOp) :
  mirrored s -> mirrored (run_ops s ops).
Proof.
  unfold run_ops. revert s. induction ops as [|op ops IH]; intros s Hm; simpl; [done|].
  apply IH. destruct op as [o e i r now|u o st now|o t]; simpl.
  - destruct (createRequest s o e i r now) eqn:E; [done|]. eapply mirrored_create; eauto.
  - destruct (respond s u o st now) eqn:E; [|done]. eapply mirrored_respond; eauto.
  - apply mirrored_cancel. done.
Qed.

(** C7 (as stated, refuted). A second request for an existing accepted
    edge is not refused: it overwrites the edge with a pending one. *)
Lemma existing_edge_overwritten :
  option_map c_status (trusted s_demo !! ("A", "B")) = Some "accepted" /\
  match createRequest s_demo "A" None (IdEmail "b@example.com") (Some "B") 200 with
  | inr s' => option_map c_status (trusted s' !! ("A", "B")) = Some "pending" /\
              option_map r_status (incoming s' !! ("B", "A")) = Some "pending"
  | inl _ => False
  end.
Proof. vm_compute. split; [reflexivity|]. split; reflexivity. Qed.

(** C7 (amended). For a signed-in owner, [createRequest] fails when the
    lookup resolves no account and when it resolves the owner; for any
    other resolved account it commits, whether or not an edge between
    the two already exists, a pending outgoing and a pending incoming
    record stamped with the commit time (replacing any earlier pair),
    and writes nothing else. *)
Theorem create_request_outcome (s : Store) (o : string) (e : option string)
    (i : Identifier) (reply : option string) (now : Z) :
  truthy o = true ->
  (lookup_uid reply = None -> createRequest s o e i reply now = inl NoUserFound) /\
  (lookup_uid reply = Some o -> createRequest s o e i reply now = inl CannotAddSelf) /\
  (forall t, lookup_uid reply = Some t -> t <> o ->
   exists s', createRequest s o e i reply now = inr s' /\
     option_map (fun c => (c_status c, c_requestedAt c, c_respondedAt c)) (trusted s' !! (o, t))
       = Some ("pending", Some now, None) /\
     option_map (fun q => (r_status q, r_requestedAt q, r_respondedAt q)) (incoming s' !! (t, o))
       = Some ("pending", Some now, None) /\
     (forall k, k <> (o, t) -> trusted s' !! k = trusted s !! k) /\
     (forall k, k <> (t, o) -> incoming s' !! k = incoming s !! k) /\
     users s' = users s /\ phone_index s' = phone_index s /\ devices s' = devices s).
Proof.
  intros Ho. unfold createRequest. rewrite Ho. simpl negb. cbv iota.
  split; [intros ->; done|]. split.
  { intros ->. rewrite String.eqb_refl. done. }
  intros t -> Hne. apply String.eqb_neq in Hne. rewrite Hne.
  destruct (match i with IdEmail em => _ | IdPhone ph => _ end) as [te tp].
  eexists. split; [reflexivity|]. simpl.
  rewrite !lookup_insert_eq. split; [done|]. split; [done|].
  split; [intros k Hk; apply lookup_insert_ne; congruence|].
  split; [intros k Hk; apply lookup_insert_ne; congruence|].
  done.
Qed.

(** ** Phone claim *)

(** C9. [setMyPhoneNumber] for a signed-in caller and a number that
    normalises to [phone]: the transaction fails with
    [failed-precondition] when the caller's stored phone (cleaned) is
    non-empty and differs from [phone]; otherwise it fails with
    [already-exists] when the index entry of [phone] names (cleaned) a
    non-empty, different account; otherwise, re-claiming one's own
    number included, it writes both [users/{uid}.phone] and
    [phone_index/{phone}.uid] and nothing else; and a failed call
    leaves the store unchanged. *)
Theorem set_phone_number_semantics (s : Store) (uid : string) (phoneRaw : option string)
    (phone : string) (now : Z) :
  truthy uid = true -> normalizePhone phoneRaw = Some phone ->
  (truthy (cleanString (users s !! uid ≫= user_phone)) = true ->
   cleanString (users s !! uid ≫= user_phone) <> phone ->
   setMyPhoneNumber s (Some uid) phoneRaw now = (s, inl FailedPrecondition)) /\
  ((truthy (cleanString (users s !! uid ≫= user_phone)) = false \/
    cleanString (users s !! uid ≫= user_phone) = phone) ->
   truthy (cleanString (phone_index s !! phone ≫= pi_uid)) = true ->
   cleanString (phone_index s !! phone ≫= pi_uid) <> uid ->
   setMyPhoneNumber s (Some uid) phoneRaw now = (s, inl AlreadyExists)) /\
  ((truthy (cleanString (users s !! uid ≫= user_phone)) = false \/
    cleanString (users s !! uid ≫= user_phone) = phone) ->
   (truthy (cleanString (phone_index s !! phone ≫= pi_uid)) = false \/
    cleanString (phone_index s !! phone ≫= pi_uid) = uid) ->
   (setMyPhoneNumber s (Some uid) phoneRaw now).2 = inr phone /\
   users (setMyPhoneNumber s (Some uid) phoneRaw now).1 !! uid
     = Some (mkUserDoc (Some phone) (Some now) (Some now)) /\
   option_map (fun p => (pi_uid p, pi_updatedAt p))
     (phone_index (setMyPhoneNumber s (Some uid) phoneRaw now).1 !! phone)
     = Some (Some uid, Some now) /\
   (forall u, u <> uid -> users (setMyPhoneNumber s (Some uid) phoneRaw now).1 !! u = users s !! u) /\
   (forall p, p <> phone ->
      phone_index (setMyPhoneNumber s (Some uid) phoneRaw now).1 !! p = phone_index s !! p) /\
   sos_rate (setMyPhoneNumber s (Some uid) phoneRaw now).1 = sos_rate s /\
   sos_events (setMyPhoneNumber s (Some uid) phoneRaw now).1 = sos_events s /\
   trusted (setMyPhoneNumber s (Some uid) phoneRaw now).1 = trusted s /\
   incoming (setMyPhoneNumber s (Some uid) phoneRaw now).1 = incoming s /\
   devices (setMyPhoneNumber s (Some uid) phoneRaw now).1 = devices s) /\
  (forall err, (setMyPhoneNumber s (Some uid) phoneRaw now).2 = inl err ->
   (setMyPhoneNumber s (Some uid) phoneRaw now).1 = s).
Proof.
  intros Hu Hn. unfold setMyPhoneNumber, phone_tx. rewrite Hu, Hn. simpl negb. cbv iota zeta.
  set (ep := cleanString (users s !! uid ≫= user_phone)).
  set (eu := cleanString (phone_index s !! phone ≫= pi_uid)).
  assert (Hpass : forall b, (b = false \/ ep = phone) ->
            (b && negb (String.eqb ep phone))%bool = false).
  { intros b [H|H]; rewrite H; [done|]. rewrite String.eqb_refl. apply andb_false_r. }
  assert (Hpass' : forall b, (b = false \/ eu = uid) ->
            (b && negb (String.eqb eu uid))%bool = false).
  { intros b [H|H]; rewrite H; [done|]. rewrite String.eqb_refl. apply andb_false_r. }
  split; [|split; [|split]].
  - intros H1 H2. apply String.eqb_neq in H2. rewrite H1, H2. done.
  - intros H0 H1 H2.
    rewrite (Hpass (truthy ep)) by (destruct H0; auto).
    apply String.eqb_neq in H2. rewrite H1, H2. done.
  - intros H0 H1.
    rewrite (Hpass (truthy ep)) by (destruct H0; auto).
    rewrite (Hpass' (truthy eu)) by (destruct H1; auto).
    simpl. rewrite !lookup_insert_eq.
    split; [done|]. split; [done|].
    split; [destruct (phone_index s !! phone); done|].
    split; [intros u Hne; apply lookup_insert_ne; congruence|].
    split; [intros p Hne; apply lookup_insert_ne; congruence|].
    done.
  - intros err.
    destruct (truthy ep && negb (String.eqb ep phone))%bool; [done|].
    destruct (truthy eu && negb (String.eqb eu uid))%bool; done.
Qed.

(** * Further properties of the code *)

(** ** Batching *)

Lemma chunk_fuel_bounds {A} (fuel n : nat) (l : list A) :
  (1 <= n)%nat -> Forall (fun c => (1 <= length c <= n)%nat) (chunk_fuel fuel n l).
Proof.
  revert l. induction fuel as [|f IH]; intros l Hn; simpl; [constructor|].
  destruct l as [|x l']; [constructor|].
  constructor; [|apply IH; done].
  rewrite length_firstn. simpl. lia.
Qed.

(** [chunk(items, size)] splits [items], in order, into slices of one
    to [max 1 size] elements. *)
Theorem chunk_slices {A} (items : list A) (size : nat) :
  concat (chunk items size) = items /\
  Forall (fun c => (1 <= length c <= Nat.max 1 size)%nat) (chunk items size).
Proof.
  split; [apply chunk_concat|]. unfold chunk. apply chunk_fuel_bounds. lia.
Qed.

Lemma expo_batches_calls es bs : (expo_batches es bs).2 = map ExpoCall bs.
Proof.
  induction bs as [|b bs IH]; simpl; [done|].
  destruct (expo_batches es bs) as [[ok errs] calls]; simpl in *.
  destruct (es b); [|destruct (expo_data_loop b 0 data)]; simpl; rewrite IH; done.
Qed.

Lemma fcm_batches_calls fs ev bs :
  (fcm_batches fs ev bs).2 = map (fun b => FcmCall b (fcm_payload ev)) bs.
Proof.
  induction bs as [|b bs IH]; simpl; [done|].
  destruct (fcm_batches fs ev bs) as [[ok errs] calls]; simpl in *. rewrite IH. done.
Qed.

(** [sendExpoPush] makes one request per slice of at most 100 messages,
    in order, whatever the endpoint answers (an HTTP error status or a
    ticket error does not stop the loop); no request for no message. *)
Theorem sendExpoPush_requests es (messages : list ExpoPushMessage) :
  (sendExpoPush es messages).2 = map ExpoCall (chunk messages 100) /\
  concat (chunk messages 100) = messages /\
  Forall (fun b => (1 <= length b <= 100)%nat) (chunk messages 100).
Proof.
  destruct (chunk_slices messages 100) as [Hc Hb]. split; [|done].
  destruct messages as [|m ms]; [done|]. apply expo_batches_calls.
Qed.

(** [sendFcmWebPush] makes one multicast per slice of at most 500
    tokens, in order, each with the same payload built from the event
    id; none for no token. *)
Theorem sendFcmWebPush_requests fs (tokens : list string) (eventId : string) :
  (sendFcmWebPush fs tokens eventId).2
    = map (fun b => FcmCall b (fcm_payload eventId)) (chunk tokens 500) /\
  concat (chunk tokens 500) = tokens /\
  Forall (fun b => (1 <= length b <= 500)%nat) (chunk tokens 500).
Proof.
  destruct (chunk_slices tokens 500) as [Hc Hb]. split; [|done].
  destruct tokens as [|t ts]; [done|]. apply fcm_batches_calls.
Qed.

Lemma delete_batches_effects co m cs :
  exists pre, (delete_batches co m cs).1.2 = map BatchCommit pre /\
    (exists post, cs = pre ++ post).
Proof.
  revert m. induction cs as [|c cs IH]; intros m; simpl.
  - exists []. split; [done|]. exists []. done.
  - destruct (co c).
    + destruct (IH (fold_left (fun m r => delete r m) c m)) as (pre & Hp & post & ->).
      destruct (delete_batches co _ _) as [[m1 es1] r1]; simpl in *.
      exists (c :: pre). split; [rewrite Hp; done|]. exists post. done.
    + exists [c]. split; [done|]. exists cs. done.
Qed.

(** One cleanup block commits batches of one to 450 deletions, each
    deleting only references filed under one of the invalid tokens. *)
Theorem cleanup_batches co m (tm : TokenMap) (invalid : list string) c :
  In (BatchCommit c) (cleanup co m tm invalid).1.2 ->
  (1 <= length c <= 450)%nat /\
  forall k, In k c -> exists t, In t invalid /\ In k (map_get tm t).
Proof.
  unfold cleanup. destruct invalid as [|t0 inv']; [intros []|].
  destruct (delete_batches_effects co m (chunk (flat_map (map_get tm) (t0 :: inv')) 450))
    as (pre & Hp & post & Hcs).
  rewrite Hp. intros Hin. apply in_map_iff in Hin as (c' & Hc' & Hin). injection Hc' as ->.
  destruct (chunk_slices (flat_map (map_get tm) (t0 :: inv')) 450) as [Hcat Hb].
  rewrite Hcs in Hb, Hcat. apply List.Forall_app in Hb as [Hb _].
  rewrite List.Forall_forall in Hb. split; [apply Hb in Hin; lia|].
  intros k Hk. apply in_flat_map. rewrite <- Hcat. apply in_concat.
  exists c. split; [apply in_app_iff; left|]; done.
Qed.

(** ** Rate limit *)

(** Whatever the stored document holds (a missing window start, a
    negative or too large count), a rate transaction that passes writes
    a count between 1 and 3 and a window that is open at [now]. *)
Theorem rate_tx_bounds now snap d :
  rate_tx now snap = inr d ->
  1 <= count d <= 3 /\ exists w, windowStart d = Some w /\ now - w < windowMs.
Proof.
  unfold rate_tx. intros H.
  set (ws := match snap with
             | Some d => match windowStart d with Some w => w | None => now end
             | None => now end) in *.
  set (cnt := Z.max 0 (match snap with Some d => count d | None => 0 end)) in *.
  assert (Hc : 0 <= cnt) by (unfold cnt; lia).
  destruct (Z.ltb_spec (now - ws) windowMs) as [Hw|Hw]; simpl in H.
  - destruct (Z.leb_spec 3 cnt); simpl in H; [discriminate|].
    injection H as <-. simpl. split; [lia|]. eexists. split; [reflexivity|lia].
  - injection H as <-. simpl. split; [lia|]. eexists. split; [reflexivity|].
    unfold windowMs. lia.
Qed.

(** ** What [sendSos] reads, writes and sends *)

Lemma dispatch_entries_owner tr dv uid x :
  In x (dispatch_entries tr dv uid) -> In x.1.1.1 (accepted_contacts tr uid).
Proof.
  unfold dispatch_entries. rewrite in_concat. intros (l & Hl & Hx).
  apply in_map_iff in Hl as (u & <- & Hu).
  unfold token_docs in Hx. apply list_elem_of_In in Hx.
  apply list_elem_of_filter in Hx as [_ Hx].
  apply list_elem_of_In, in_map_iff in Hx as ([k doc] & <- & Hk).
  apply list_elem_of_In in Hk. apply list_elem_of_filter in Hk as [Hk _].
  simpl in *. subst. done.
Qed.

Lemma push_tokens_owner proj tr dv uid t k :
  In k (map_get (push_tokens proj (dispatch_entries tr dv uid) []) t) ->
  In k.1 (accepted_contacts tr uid).
Proof.
  intros Hin. apply push_tokens_get in Hin as [[]|(x & Hx & <- & _)].
  apply (dispatch_entries_owner tr dv uid x Hx).
Qed.

(** The token keys of one dispatch: the distinct non-empty cleaned
    tokens of the accepted contacts' device records. *)
Lemma expo_map_keys tr dv uid t :
  In t (map fst (expo_map tr dv uid)) <->
  exists k doc, dv !! k = Some doc /\ In k.1 (accepted_contacts tr uid) /\
    truthy t = true /\ cleanString (expoPushToken doc) = t.
Proof.
  unfold expo_map. rewrite build_maps_split. simpl. rewrite push_tokens_keys. simpl. split.
  - intros [[]|(x & Hx & Hp & Ht)].
    pose proof (dispatch_entries_owner tr dv uid x Hx) as Ho.
    apply dispatch_entries_in in Hx as (doc & Hd & He & Hw).
    exists x.1.1, doc. unfold tok_expo in Hp. subst t. auto.
  - intros (k & doc & Hk & Hu & Ht & <-). right.
    exists (k, cleanString (expoPushToken doc), cleanString (webPushToken doc)).
    split; [|done]. apply dispatch_entries_complete; [done|done|]. rewrite Ht. done.
Qed.

Lemma web_map_keys tr dv uid t :
  In t (map fst (web_map tr dv uid)) <->
  exists k doc, dv !! k = Some doc /\ In k.1 (accepted_contacts tr uid) /\
    truthy t = true /\ cleanString (webPushToken doc) = t.
Proof.
  unfold web_map. rewrite build_maps_split. simpl. rewrite push_tokens_keys. simpl. split.
  - intros [[]|(x & Hx & Hp & Ht)].
    pose proof (dispatch_entries_owner tr dv uid x Hx) as Ho.
    apply dispatch_entries_in in Hx as (doc & Hd & He & Hw).
    exists x.1.1, doc. unfold tok_web in Hp. subst t. auto.
  - intros (k & doc & Hk & Hu & Ht & <-). right.
    exists (k, cleanString (expoPushToken doc), cleanString (webPushToken doc)).
    split; [|done]. apply dispatch_entries_complete; [done|done|].
    rewrite Ht, orb_true_r. done.
Qed.

Lemma expo_map_nodup tr dv uid : List.NoDup (map fst (expo_map tr dv uid)).
Proof.
  unfold expo_map. rewrite build_maps_split. apply push_tokens_nodup. constructor.
Qed.

Lemma web_map_nodup tr dv uid : List.NoDup (map fst (web_map tr dv uid)).
Proof.
  unfold web_map. rewrite build_maps_split. apply push_tokens_nodup. constructor.
Qed.

(** One dispatch: the device records it leaves, and the counters it
    returns. *)
Lemma dispatch_fanout_shape es fs co tr dv uid ev d calls r :
  dispatch_fanout es fs co tr dv uid ev = (d, calls, r) ->
  (forall k, d !! k = dv !! k \/ (d !! k = None /\ In k.1 (accepted_contacts tr uid))) /\
  (forall res, r = inr res ->
     recipients res = Z.of_nat (length (accepted_contacts tr uid)) /\
     expoTokens res = Z.of_nat (length (expo_map tr dv uid)) /\
     webTokens res = Z.of_nat (length (web_map tr dv uid)) /\
     tokens res = expoTokens res + webTokens res).
Proof.
  intros H. unfold expo_map, web_map. rewrite build_maps_split. cbn [fst snd].
  unfold dispatch_fanout in H. cbv zeta in H. fold (dispatch_entries tr dv uid) in H.
  rewrite build_maps_split in H. cbv beta iota in H.
  destruct (accepted_contacts tr uid) as [|u us] eqn:Hacc.
  { assert (Hde : dispatch_entries tr dv uid = []) by (unfold dispatch_entries; rewrite Hacc; done).
    simplify_eq. rewrite Hde. split; [auto|]. intros res Hr. simplify_eq. simpl. lia. }
  rewrite <- Hacc.
  set (em := push_tokens tok_expo (dispatch_entries tr dv uid) []) in *.
  set (wm := push_tokens tok_web (dispatch_entries tr dv uid) []) in *.
  destruct (sendExpoPush es (map (expo_message ev) (map fst em))) as [[eok eerrs] calls1].
  destruct (sendFcmWebPush fs (map fst wm) ev) as [[fok ferrs] calls2].
  cbv beta iota in H.
  pose proof (cleanup_lookup co dv em (invalid_expo eerrs)) as L1.
  destruct (cleanup co dv em (invalid_expo eerrs)) as [[d1 cc1] r1].
  cbn [fst snd] in L1.
  assert (D1 : forall k, d1 !! k = dv !! k \/ (d1 !! k = None /\ In k.1 (accepted_contacts tr uid))).
  { intros k. destruct (L1 k) as [E|[E (t & _ & Hk)]]; [auto|].
    right. split; [done|]. apply (push_tokens_owner tok_expo tr dv uid t k Hk). }
  destruct r1 as [e1|]; cbv beta iota in H.
  { simplify_eq. split; [done|]. intros res Hr. discriminate. }
  pose proof (cleanup_lookup co d1 wm (invalid_web ferrs)) as L2.
  destruct (cleanup co d1 wm (invalid_web ferrs)) as [[d2 cc2] r2].
  cbn [fst snd] in L2.
  assert (D2 : forall k, d2 !! k = dv !! k \/ (d2 !! k = None /\ In k.1 (accepted_contacts tr uid))).
  { intros k. destruct (L2 k) as [E|[E (t & _ & Hk)]].
    - rewrite E. apply D1.
    - right. split; [done|]. apply (push_tokens_owner tok_web tr dv uid t k Hk). }
  destruct r2 as [e2|]; cbv beta iota in H; simplify_eq.
  - split; [done|]. intros res Hr. discriminate.
  - split; [done|]. intros res Hr. injection Hr as <-. simpl.
    rewrite !length_map, Hacc. simpl. lia.
Qed.


(** [sendSos] never writes [users], [phone_index], [sos_events],
    [trusted] or [incoming], and in [sos_rate] only the caller's own
    document. *)
Theorem sendSos_write_footprint es fs co (s : Store) (auth ev : option string) (now : Z) :
  let s' := (sendSos es fs co s auth ev now).1.1 in
  users s' = users s /\ phone_index s' = phone_index s /\
  sos_events s' = sos_events s /\ trusted s' = trusted s /\ incoming s' = incoming s /\
  (forall u, sos_rate s' !! u <> sos_rate s !! u -> auth = Some u).
Proof.
  cbv zeta.
  destruct (sendSos es fs co s auth ev now) as [[s' calls] r] eqn:H. simpl.
  apply sendSos_cases in H
    as [(-> & _)|[(uid & d & -> & _ & _ & -> & _)|(uid & d & event & dv' & -> & _ & _ & _ & _ & _ & ->)]].
  - repeat split. intros u Hu. done.
  - simpl. repeat split. intros u Hu. destruct (decide (u = uid)) as [->|Hne]; [done|].
    rewrite lookup_insert_ne in Hu by congruence. done.
  - simpl. repeat split. intros u Hu. destruct (decide (u = uid)) as [->|Hne]; [done|].
    rewrite lookup_insert_ne in Hu by congruence. done.
Qed.

(** [sendSos] deletes device records and nothing else in [devices]: a
    record it changes is removed, and it belongs to an account that has
    accepted the caller as trusted contact owner ([trusted/{caller}/contacts]
    with status ["accepted"]). *)
Theorem sendSos_device_deletions es fs co (s : Store) (auth ev : option string) (now : Z) k :
  let s' := (sendSos es fs co s auth ev now).1.1 in
  devices s' !! k = devices s !! k \/
  (devices s' !! k = None /\
   exists uid, auth = Some uid /\ In k.1 (accepted_contacts (trusted s) uid)).
Proof.
  cbv zeta.
  destruct (sendSos es fs co s auth ev now) as [[s' calls] r] eqn:H. simpl.
  apply sendSos_cases in H
    as [(-> & _)|[(uid & d & -> & _ & _ & -> & _)|(uid & d & event & dv' & -> & _ & _ & _ & _ & Hd & ->)]];
    [auto|auto|].
  simpl. apply dispatch_fanout_shape in Hd as [Hd _].
  destruct (Hd k) as [E|[E Hin]]; [auto|]. right. eauto.
Qed.

(** A call that sends anything or changes a device record was made by
    a signed-in caller on an existing event whose cleaned [senderUid] is
    the caller. *)
Theorem sendSos_requires_owner es fs co (s : Store) (auth ev : option string) (now : Z)
    s' calls r :
  sendSos es fs co s auth ev now = (s', calls, r) ->
  calls <> [] \/ devices s' <> devices s ->
  exists uid event, auth = Some uid /\ truthy uid = true /\
    sos_events s !! cleanString ev = Some event /\ cleanString (senderUid event) = uid.
Proof.
  intros H Hch.
  apply sendSos_cases in H
    as [(-> & -> & _)|[(uid & d & -> & _ & _ & -> & -> & _)|(uid & d & event & dv' & -> & Hu & _ & Hev & Hs & _ & _)]].
  - destruct Hch as [Hc|Hc]; done.
  - destruct Hch as [Hc|Hc]; [done|simpl in Hc; done].
  - exists uid, event. auto.
Qed.

(** Every Expo message and every web token [sendSos] hands to a
    transport is the non-empty cleaned token of a device record of an
    account that has accepted the caller. *)
Theorem sendSos_push_targets es fs co (s : Store) (auth ev : option string) (now : Z) :
  let calls := (sendSos es fs co s auth ev now).1.2 in
  (forall m, In m (expo_sent calls) ->
     exists uid k doc, auth = Some uid /\ devices s !! k = Some doc /\
       In k.1 (accepted_contacts (trusted s) uid) /\
       truthy (msg_to m) = true /\ cleanString (expoPushToken doc) = msg_to m) /\
  (forall t, In t (web_sent calls) ->
     exists uid k doc, auth = Some uid /\ devices s !! k = Some doc /\
       In k.1 (accepted_contacts (trusted s) uid) /\
       truthy t = true /\ cleanString (webPushToken doc) = t).
Proof.
  cbv zeta.
  destruct (sendSos es fs co s auth ev now) as [[s' calls] r] eqn:H. simpl.
  apply sendSos_cases in H
    as [(_ & -> & _)|[(uid & d & -> & _ & _ & _ & -> & _)|(uid & d & event & dv' & -> & _ & _ & _ & _ & Hd & _)]];
    [simpl; split; intros ? []|simpl; split; intros ? []|].
  apply dispatch_fanout_sent in Hd as [He Hw]. rewrite He, Hw. split.
  - intros m Hm. apply in_map_iff in Hm as (t & <- & Ht).
    apply expo_map_keys in Ht as (k & doc & Hk & Hu & Htr & Heq).
    exists uid, k, doc. simpl. auto.
  - intros t Ht. apply web_map_keys in Ht as (k & doc & Hk & Hu & Htr & Heq).
    exists uid, k, doc. auto.
Qed.

(** The counters of a successful [sendSos]: [recipients] is the number
    of accepted contacts, [expoTokens] and [webTokens] the numbers of
    distinct non-empty cleaned Expo and web tokens over their device
    records, and [tokens] their sum. *)
Theorem sendSos_result_counters es fs co (s : Store) (auth ev : option string) (now : Z)
    s' calls res :
  sendSos es fs co s auth ev now = (s', calls, inr res) ->
  exists uid, auth = Some uid /\
    recipients res = Z.of_nat (length (accepted_contacts (trusted s) uid)) /\
    tokens res = expoTokens res + webTokens res /\
    (exists le, List.NoDup le /\ expoTokens res = Z.of_nat (length le) /\
       forall t, In t le <-> exists k doc, devices s !! k = Some doc /\
         In k.1 (accepted_contacts (trusted s) uid) /\ truthy t = true /\
         cleanString (expoPushToken doc) = t) /\
    (exists lw, List.NoDup lw /\ webTokens res = Z.of_nat (length lw) /\
       forall t, In t lw <-> exists k doc, devices s !! k = Some doc /\
         In k.1 (accepted_contacts (trusted s) uid) /\ truthy t = true /\
         cleanString (webPushToken doc) = t).
Proof.
  intros H.
  apply sendSos_cases in H
    as [(_ & _ & e & He)|[(uid & d & _ & _ & _ & _ & _ & e & He)|(uid & d & event & dv' & -> & _ & _ & _ & _ & Hd & _)]];
    [discriminate|discriminate|].
  apply dispatch_fanout_shape in Hd as [_ Hc].
  destruct (Hc res eq_refl) as (Hr & Hex & Hwb & Ht).
  exists uid. split; [done|]. split; [done|]. split; [done|]. split.
  - exists (map fst (expo_map (trusted s) (devices s) uid)).
    split; [apply expo_map_nodup|]. split; [rewrite length_map; done|].
    intros t. apply expo_map_keys.
  - exists (map fst (web_map (trusted s) (devices s) uid)).
    split; [apply web_map_nodup|]. split; [rewrite length_map; done|].
    intros t. apply web_map_keys.
Qed.

(** ** Phone numbers *)

Lemma drop_ws_app l1 c l2 :
  is_ws c = false -> drop_ws (l1 ++ c :: l2) = drop_ws l1 ++ c :: l2.
Proof.
  intros Hc. induction l1 as [|a l1 IH]; simpl; [rewrite Hc; done|].
  destruct (is_ws a); [exact IH|done].
Qed.

Lemma trim_lead p L :
  forallb (fun c => negb (is_ws c)) p = true -> p <> [] ->
  rev (drop_ws (rev (drop_ws (p ++ L)))) = p ++ rev (drop_ws (rev L)).
Proof.
  intros Hp Hne.
  assert (Hall : forall c, In c p -> is_ws c = false).
  { intros c Hc. rewrite forallb_forall in Hp. specialize (Hp c Hc). destruct (is_ws c); done. }
  destruct p as [|c p']; [done|].
  rewrite <- app_comm_cons. cbn [drop_ws]. rewrite (Hall c (or_introl eq_refl)).
  rewrite app_comm_cons, rev_app_distr.
  destruct (rev (c :: p')) as [|d q] eqn:E.
  { apply (f_equal (@length _)) in E. rewrite length_rev in E. simpl in E. discriminate. }
  rewrite drop_ws_app.
  2: { apply Hall. rewrite in_rev, E. left. done. }
  rewrite rev_app_distr, <- E, rev_involutive. done.
Qed.

Lemma list_ascii_append a b :
  list_ascii_of_string (String.append a b) = list_ascii_of_string a ++ list_ascii_of_string b.
Proof. induction a as [|c a IH]; simpl; [done|]. rewrite IH. done. Qed.

Lemma substring_all s : substring 0 (String.length s) s = s.
Proof. induction s as [|c s IH]; simpl; [done|]. rewrite IH. done. Qed.

Lemma only_digits_cons c s :
  only_digits (String c s) = if is_digit c then String c (only_digits s) else only_digits s.
Proof. unfold only_digits. simpl. destruct (is_digit c); reflexivity. Qed.

Lemma prefix_empty s : String.prefix "" s = true.
Proof. destruct s; reflexivity. Qed.

(** A number written with the international prefix [00] normalises
    exactly as the same number written with [+]. *)
Lemma normalizePhone_00 d :
  normalizePhone (Some (String.append "00" d)) = normalizePhone (Some (String.append "+" d)).
Proof.
  unfold normalizePhone, cleanString, trim. rewrite !list_ascii_append.
  change (list_ascii_of_string "00") with (["0"%char; "0"%char]).
  change (list_ascii_of_string "+") with (["+"%char]).
  rewrite !trim_lead by (done || discriminate).
  set (X := rev (drop_ws (rev (list_ascii_of_string d)))).
  cbn [app string_of_list_ascii].
  set (Y := string_of_list_ascii X). clearbody Y.
  rewrite !only_digits_cons.
  assert (H0 : is_digit "0" = true) by reflexivity.
  assert (Hp : is_digit "+" = false) by reflexivity.
  rewrite H0, Hp.
  assert (P1 : String.prefix "+" (String "0" (String "0" Y)) = false) by reflexivity.
  assert (P2 : String.prefix "00" (String "0" (String "0" Y)) = true) by (apply prefix_empty).
  assert (P3 : String.prefix "+" (String "+" Y) = true) by (apply prefix_empty).
  rewrite P1, P2, P3.
  set (D := only_digits Y). clearbody D.
  assert (T0 : truthy (String "0" (String "0" D)) = true) by reflexivity.
  assert (T1 : truthy (String "0" (String "0" Y)) = true) by reflexivity.
  assert (T2 : truthy (String "+" Y) = true) by reflexivity.
  rewrite T0, T1, T2. cbn -[e164_ok truthy].
  rewrite Nat.sub_0_r, substring_all.
  destruct (truthy D) eqn:HD; [reflexivity|].
  unfold truthy in HD. apply negb_false_iff, String.eqb_eq in HD. subst D. reflexivity.
Qed.

Lemma digit_not_ws c : is_digit c = true -> is_ws c = false.
Proof.
  unfold is_digit, is_ws. intros H. apply andb_prop in H as [H1 H2].
  apply Nat.leb_le in H1, H2.
  destruct (Nat.eqb_spec (nat_of_ascii c) 32); [lia|].
  destruct (Nat.leb_spec 9 (nat_of_ascii c)); destruct (Nat.leb_spec (nat_of_ascii c) 13);
    simpl; try reflexivity; lia.
Qed.

Lemma only_digits_all s :
  forallb is_digit (list_ascii_of_string s) = true -> only_digits s = s.
Proof.
  induction s as [|c s IH]; [reflexivity|]. simpl. intros H. apply andb_prop in H as [Hc Hs].
  rewrite only_digits_cons, Hc, IH by done. reflexivity.
Qed.

Lemma trim_e164 e : e164_ok e = true -> trim e = e.
Proof.
  destruct e as [|c rest]; [discriminate|]. unfold e164_ok. intros H.
  apply andb_prop in H as [H _]. apply andb_prop in H as [H _].
  apply andb_prop in H as [Hc Hd].
  apply Ascii.eqb_eq in Hc. subst c.
  unfold trim. rewrite <- (app_nil_r (list_ascii_of_string (String "+" rest))).
  rewrite trim_lead; [simpl; rewrite app_nil_r, string_of_list_ascii_of_string; reflexivity| |discriminate].
  simpl. rewrite forallb_forall in Hd |- *. intros x Hx.
  rewrite (digit_not_ws x (Hd x Hx)). reflexivity.
Qed.

Lemma e164_fixed e : e164_ok e = true -> normalizePhone (Some e) = Some e.
Proof.
  intros He. pose proof He as He'.
  unfold normalizePhone. cbn [cleanString]. rewrite (trim_e164 e He).
  destruct e as [|c rest]; [discriminate|].
  unfold e164_ok in He'. apply andb_prop in He' as [He' Hmax]. apply andb_prop in He' as [He' Hmin].
  apply andb_prop in He' as [Hc Hd]. apply Ascii.eqb_eq in Hc. subst c.
  rewrite only_digits_cons. replace (is_digit "+") with false by reflexivity.
  rewrite (only_digits_all rest Hd).
  assert (Ht : truthy rest = true).
  { destruct rest; [discriminate|reflexivity]. }
  rewrite Ht. cbn [negb truthy String.eqb].
  assert (P : String.prefix "+" (String "+" rest) = true) by apply prefix_empty.
  rewrite P. change ("+" +:+ rest) with (String "+" rest). cbv beta iota. rewrite He. reflexivity.
Qed.

Lemma normalizePhone_e164 v e : normalizePhone v = Some e -> e164_ok e = true.
Proof.
  unfold normalizePhone. intros H. repeat case_match; simplify_eq; done.
Qed.

(** [normalizePhone] only returns E.164 numbers, and normalising its
    output again gives the same number. *)
Theorem normalizePhone_idempotent v e :
  normalizePhone v = Some e -> e164_ok e = true /\ normalizePhone (Some e) = Some e.
Proof.
  intros H. pose proof (normalizePhone_e164 v e H) as He. split; [done|]. apply e164_fixed. done.
Qed.


Lemma phone_tx_ok s uid phone now s' :
  phone_tx s uid phone now = inr s' ->
  users s' = <[uid := mkUserDoc (Some phone) (Some now) (Some now)]> (users s) /\
  (exists pdoc, phone_index s' = <[phone := pdoc]> (phone_index s) /\ pi_uid pdoc = Some uid) /\
  (truthy (cleanString (users s !! uid ≫= user_phone)) = false \/
   cleanString (users s !! uid ≫= user_phone) = phone) /\
  (truthy (cleanString (phone_index s !! phone ≫= pi_uid)) = false \/
   cleanString (phone_index s !! phone ≫= pi_uid) = uid).
Proof.
  unfold phone_tx. intros H.
  destruct (truthy (cleanString (users s !! uid ≫= user_phone))) eqn:H1;
  destruct (String.eqb (cleanString (users s !! uid ≫= user_phone)) phone) eqn:H2;
  simpl in H; try discriminate;
  destruct (truthy (cleanString (phone_index s !! phone ≫= pi_uid))) eqn:H3;
  destruct (String.eqb (cleanString (phone_index s !! phone ≫= pi_uid)) uid) eqn:H4;
  simpl in H; try discriminate;
  injection H as <-; simpl;
  (split; [reflexivity|]);
  (split; [eexists; split; [reflexivity|]; destruct (phone_index s !! phone); reflexivity|]);
  apply String.eqb_eq in H2 || idtac; apply String.eqb_eq in H4 || idtac; auto.
Qed.

Lemma setMyPhoneNumber_ok s uid raw now s' phone :
  setMyPhoneNumber s (Some uid) raw now = (s', inr phone) ->
  truthy uid = true /\ normalizePhone raw = Some phone /\ phone_tx s uid phone now = inr s'.
Proof.
  unfold setMyPhoneNumber. intros H.
  destruct (truthy uid) eqn:Hu; simpl in H; [|discriminate].
  destruct (normalizePhone raw) as [ph|] eqn:Hn; [|discriminate].
  destruct (phone_tx s uid ph now) as [e|s1] eqn:Ht; [discriminate|]. simplify_eq. auto.
Qed.

(** After [setMyPhoneNumber] succeeds for [uid], any signed-in account
    looking up the same raw input gets [uid] (trimmed) back. *)
Theorem phone_lookup_roundtrip s uid raw now s' phone a :
  setMyPhoneNumber s (Some uid) raw now = (s', inr phone) -> truthy a = true ->
  lookupUserByPhone s' (Some a) raw = inr (trim uid).
Proof.
  intros H Ha. apply setMyPhoneNumber_ok in H as (Hu & Hn & Ht).
  apply phone_tx_ok in Ht as (_ & (pdoc & Hi & Hp) & _).
  unfold lookupUserByPhone. rewrite Ha, Hn. simpl. rewrite Hi, lookup_insert_eq. simpl.
  rewrite Hp. reflexivity.
Qed.

(** [setMyPhoneNumber] keeps every account's stored phone bound to it in
    [phone_index] (given trimmed, non-empty uids), so no two accounts
    hold the same non-empty phone. *)
Theorem phone_bound_preserved s auth raw now s' r :
  phone_bound s -> index_ok s ->
  (forall uid, auth = Some uid -> trim uid = uid) ->
  setMyPhoneNumber s auth raw now = (s', r) ->
  phone_bound s' /\ index_ok s' /\
  (forall u1 u2 p, users s' !! u1 ≫= user_phone = Some p -> users s' !! u2 ≫= user_phone = Some p ->
     truthy p = true -> u1 = u2).
Proof.
  intros Hb Hi Htr H.
  assert (Hb' : phone_bound s' /\ index_ok s').
  { destruct r as [e|phone].
    - assert (s' = s) as ->; [|done].
      unfold setMyPhoneNumber in H. repeat case_match; simplify_eq; done.
    - destruct auth as [uid|]; [|simpl in H; discriminate].
      specialize (Htr uid eq_refl).
      apply setMyPhoneNumber_ok in H as (Hu & Hn & Ht).
      apply phone_tx_ok in Ht as (Hus & (pdoc & Hix & Hp) & Hold & Hidx).
      split.
      + intros u p Hup Hpt. rewrite Hix. rewrite Hus in Hup.
        destruct (decide (u = uid)) as [->|Hne].
        * rewrite lookup_insert_eq in Hup. simpl in Hup. injection Hup as <-.
          rewrite lookup_insert_eq. simpl. done.
        * rewrite lookup_insert_ne in Hup by congruence.
          destruct (decide (p = phone)) as [->|Hpne].
          -- exfalso. pose proof (Hb u phone Hup Hpt) as Hb1.
             destruct (phone_index s !! phone) as [d|] eqn:Ed; [|discriminate]. simpl in Hb1.
             destruct (Hi phone d u Ed Hb1) as [Htu Htru].
             simpl in Hidx. rewrite Hb1 in Hidx. simpl in Hidx. rewrite Htu in Hidx.
             destruct Hidx as [Hf|Heq]; [congruence|congruence].
          -- rewrite lookup_insert_ne by congruence. apply Hb; done.
      + intros p d u Hpd Hdu. rewrite Hix in Hpd.
        destruct (decide (p = phone)) as [->|Hpne].
        * rewrite lookup_insert_eq in Hpd. injection Hpd as <-. rewrite Hp in Hdu.
          injection Hdu as <-. done.
        * rewrite lookup_insert_ne in Hpd by congruence. apply (Hi p d u); done. }
  destruct Hb' as [Hb' Hi']. split; [done|]. split; [done|].
  intros u1 u2 p H1 H2 Hp. pose proof (Hb' u1 p H1 Hp) as E1. pose proof (Hb' u2 p H2 Hp) as E2.
  congruence.
Qed.

(** ** Trust operations and SOS recipients *)

Lemma accepted_contacts_iff tr o t :
  In t (accepted_contacts tr o) <->
  truthy t = true /\ exists c, tr !! (o, t) = Some c /\ c_status c = "accepted".
Proof.
  unfold accepted_contacts. rewrite <- list_elem_of_In, list_elem_of_filter.
  rewrite list_elem_of_In, in_map_iff. split.
  - intros [Ht ([[o' t'] c] & Hk & Hin)]. simpl in Hk. subst t'. split; [done|].
    apply list_elem_of_In, list_elem_of_filter in Hin as [[Ho Hs] Hin]. simpl in Ho, Hs. subst o'.
    apply elem_of_map_to_list in Hin. eauto.
  - intros [Ht (c & Hc & Hs)]. split; [done|]. exists ((o, t), c). split; [done|].
    apply list_elem_of_In, list_elem_of_filter. split; [done|]. apply elem_of_map_to_list. done.
Qed.

(** A successful response makes the responder an SOS recipient of the
    owner exactly when it accepts, and changes no other pair. *)
Theorem respond_sets_recipient s t o st now s' :
  respond s t o st now = Some s' ->
  (In t (accepted_contacts (trusted s') o) <-> st = Accepted) /\
  (forall o' t', (o', t') <> (o, t) ->
     (In t' (accepted_contacts (trusted s') o') <-> In t' (accepted_contacts (trusted s) o'))).
Proof.
  unfold respond. intros H.
  destruct (truthy t) eqn:Ht; simpl in H; [|discriminate].
  destruct (incoming s !! (t, o)) as [rq|]; [|discriminate].
  destruct (trusted s !! (o, t)) as [ct|]; [|discriminate].
  injection H as <-. simpl. split.
  - rewrite accepted_contacts_iff, lookup_insert_eq. simpl. split.
    + intros [_ (c & Hc & Hs)]. injection Hc as <-. simpl in Hs. destruct st; [done|discriminate].
    + intros ->. split; [done|]. eexists. split; [reflexivity|]. reflexivity.
  - intros o' t' Hne. rewrite !accepted_contacts_iff, lookup_insert_ne by congruence. done.
Qed.

(** Cancelling removes the trusted account from the owner's SOS
    recipients, makes a later response write nothing, and changes no
    other pair. *)
Theorem cancel_removes_recipient s o t st now :
  truthy o = true ->
  ~ In t (accepted_contacts (trusted (cancelRequest s o t)) o) /\
  respond (cancelRequest s o t) t o st now = None /\
  (forall o' t', (o', t') <> (o, t) ->
     (In t' (accepted_contacts (trusted (cancelRequest s o t)) o') <->
      In t' (accepted_contacts (trusted s) o'))).
Proof.
  intros Ho. unfold cancelRequest. rewrite Ho. simpl. split; [|split].
  - rewrite accepted_contacts_iff, lookup_delete_eq. intros [_ (c & Hc & _)]. discriminate.
  - unfold respond. simpl. rewrite lookup_delete_eq. destruct (truthy t); reflexivity.
  - intros o' t' Hne. rewrite !accepted_contacts_iff, lookup_delete_ne by congruence. done.
Qed.

(** A new request leaves the looked-up account out of the owner's SOS
    recipients (even if it had accepted before) and changes no other
    pair. *)
Theorem create_request_not_recipient s o e i reply now s' :
  createRequest s o e i reply now = inr s' ->
  exists t, lookup_uid reply = Some t /\ t <> o /\
    ~ In t (accepted_contacts (trusted s') o) /\
    (forall o' t', (o', t') <> (o, t) ->
       (In t' (accepted_contacts (trusted s') o') <-> In t' (accepted_contacts (trusted s) o'))).
Proof.
  unfold createRequest. intros H.
  destruct (truthy o); simpl in H; [|discriminate].
  destruct (lookup_uid reply) as [t|]; [|discriminate].
  destruct (String.eqb t o) eqn:Eto; [discriminate|]. apply String.eqb_neq in Eto.
  destruct i; injection H as <-; exists t; (split; [done|]); (split; [done|]); simpl; split;
    [rewrite accepted_contacts_iff, lookup_insert_eq; intros [_ (c & Hc & Hs)];
     injection Hc as <-; discriminate
    |intros o' t' Hne; rewrite !accepted_contacts_iff, lookup_insert_ne by congruence; done
    |rewrite accepted_contacts_iff, lookup_insert_eq; intros [_ (c & Hc & Hs)];
     injection Hc as <-; discriminate
    |intros o' t' Hne; rewrite !accepted_contacts_iff, lookup_insert_ne by congruence; done].
Qed.

Lemma row_status_accepted raw : row_status raw = "accepted" <-> raw = "accepted".
Proof.
  unfold row_status. split.
  - destruct (truthy raw) eqn:Ht.
    + destruct (String.eqb_spec raw "accepted") as [->|Hne]; [done|].
      destruct (String.eqb raw "rejected"); discriminate.
    + intros H. discriminate.
  - intros ->. reflexivity.
Qed.

(** On a mirrored store, the incoming-requests screen shows a request as
    accepted exactly when the owner's [sendSos] counts the viewer as a
    recipient. *)
Theorem incoming_row_matches_recipients s o t q :
  mirrored s -> incoming s !! (t, o) = Some q -> truthy t = true ->
  (row_status (r_status q) = "accepted" <-> In t (accepted_contacts (trusted s) o)).
Proof.
  intros Hm Hq Ht. rewrite row_status_accepted, accepted_contacts_iff.
  specialize (Hm o t). rewrite Hq in Hm. unfold edge_mirrored in Hm.
  destruct (trusted s !! (o, t)) as [c|] eqn:Hc; [|done].
  destruct Hm as [Hs _]. split.
  - intros Hr. split; [done|]. exists c. split; [done|]. congruence.
  - intros [_ (c' & Hc' & Hs')]. injection Hc' as <-. congruence.
Qed.

(** ** The shake detector *)

Lemma shake_step_trigger s r s1 b :
  shake_step s r = (s1, b) ->
  (b = false /\ lastTriggerAt s1 = lastTriggerAt s) \/
  (b = true /\ lastTriggerAt s1 = nowMs r /\ COOLDOWN_MS <= nowMs r - lastTriggerAt s).
Proof.
  unfold shake_step. intros H.
  destruct (signedIn r), (sendingNow r), (strong r); simpl in H; try (simplify_eq; auto; fail).
  destruct (Z.ltb_spec (nowMs r - lastTriggerAt s) COOLDOWN_MS); [simplify_eq; auto|].
  destruct (Z.ltb_spec (nowMs r - lastShakeAt s) SHAKE_DEBOUNCE_MS); [simplify_eq; auto|].
  destruct (_ <? 2); simplify_eq; simpl; auto.
Qed.

(** Shake-triggered SOS calls are at least [COOLDOWN_MS] apart (and the
    first one that long after the stored last trigger). *)
Theorem shake_triggers_spaced s rs : spaced (lastTriggerAt s) (shake_run s rs).2.
Proof.
  revert s. induction rs as [|r rs IH]; intros s; simpl; [done|].
  destruct (shake_step s r) as [s1 b] eqn:E.
  specialize (IH s1). destruct (shake_run s1 rs) as [s2 ts]. simpl in *.
  apply shake_step_trigger in E as [[-> Hl]|(-> & Hl & Hc)].
  - rewrite <- Hl. done.
  - simpl. split; [done|]. rewrite <- Hl. done.
Qed.



Lemma shake_step_inv s hist r s1 b :
  shake_inv s hist -> shake_step s r = (s1, b) ->
  shake_inv s1 (hist ++ [r]) /\
  (b = true -> accepted_reading r = true /\ sh_count s = 1 /\
     SHAKE_DEBOUNCE_MS <= nowMs r - lastShakeAt s <= SHAKE_WINDOW_MS).
Proof.
  unfold shake_step. intros Hi H.
  assert (Hmono : forall s', shake_inv s' hist -> shake_inv s' (hist ++ [r])).
  { intros s' [H0|(H1 & x & Hx & Ha & Hn)]; [left; done|right; split; [done|]].
    exists x. rewrite in_app_iff. auto. }
  destruct (signedIn r) eqn:E1, (sendingNow r) eqn:E2, (strong r) eqn:E3; simpl in H;
    try (simplify_eq; split; [apply Hmono; done|intros; discriminate]).
  destruct (Z.ltb_spec (nowMs r - lastTriggerAt s) COOLDOWN_MS);
    [simplify_eq; split; [apply Hmono; done|intros; discriminate]|].
  destruct (Z.ltb_spec (nowMs r - lastShakeAt s) SHAKE_DEBOUNCE_MS);
    [simplify_eq; split; [apply Hmono; done|intros; discriminate]|].
  assert (Hacc : accepted_reading r = true) by (unfold accepted_reading; rewrite E1, E2, E3; done).
  assert (Hc : sh_count s = 0 \/ sh_count s = 1) by (destruct Hi as [?|[? _]]; auto).
  destruct (Z.ltb_spec SHAKE_WINDOW_MS (nowMs r - lastShakeAt s)) as [Hw|Hw].
  - simpl in H. simplify_eq. simpl. split; [|intros; discriminate].
    right. split; [done|]. exists r. rewrite in_app_iff. simpl. auto.
  - destruct (Z.ltb_spec (sh_count s + 1) 2) as [Hl|Hl]; simplify_eq; simpl.
    + split; [|intros; discriminate]. right. split; [simpl; lia|]. exists r. rewrite in_app_iff. simpl. auto.
    + split; [left; done|]. intros _. split; [done|]. split; [lia|]. split; lia.
Qed.

(** From the initial state, every shake trigger is preceded by an
    earlier accepted strong reading 350 to 1400 ms before it. *)
Theorem shake_trigger_needs_two_shakes rs t :
  In t (shake_run shake_init rs).2 ->
  exists pre r1 mid r2 post, rs = pre ++ r1 :: mid ++ r2 :: post /\
    accepted_reading r1 = true /\ accepted_reading r2 = true /\ nowMs r2 = t /\
    SHAKE_DEBOUNCE_MS <= t - nowMs r1 <= SHAKE_WINDOW_MS.
Proof.
  assert (G : forall rs s hist, shake_inv s hist -> In t (shake_run s rs).2 ->
    exists pre r1 mid r2 post, hist ++ rs = pre ++ r1 :: mid ++ r2 :: post /\
      accepted_reading r1 = true /\ accepted_reading r2 = true /\ nowMs r2 = t /\
      SHAKE_DEBOUNCE_MS <= t - nowMs r1 <= SHAKE_WINDOW_MS).
  { clear rs. intros rs. induction rs as [|r rs IH]; intros s hist Hi Ht; simpl in Ht; [done|].
    destruct (shake_step s r) as [s1 b] eqn:E.
    destruct (shake_step_inv s hist r s1 b Hi E) as [Hi1 Hf].
    destruct (shake_run s1 rs) as [s2 ts] eqn:Er. simpl in Ht.
    assert (Hrec : In t ts -> exists pre r1 mid r2 post, hist ++ r :: rs = pre ++ r1 :: mid ++ r2 :: post /\
      accepted_reading r1 = true /\ accepted_reading r2 = true /\ nowMs r2 = t /\
      SHAKE_DEBOUNCE_MS <= t - nowMs r1 <= SHAKE_WINDOW_MS).
    { intros Hts. specialize (IH s1 (hist ++ [r]) Hi1). rewrite Er in IH.
      rewrite <- app_assoc in IH. apply IH. done. }
    destruct b; [|auto].
    destruct Ht as [<-|Ht]; [|auto].
    destruct (Hf eq_refl) as (Ha & Hc & Hgap).
    destruct Hi as [H0|(_ & r1 & Hr1 & Ha1 & Hn1)]; [lia|].
    apply in_split in Hr1 as (pre & mid & ->).
    exists pre, r1, mid, r, rs. split; [rewrite <- app_assoc; done|].
    rewrite Hn1. auto. }
  intros Ht. apply (G rs shake_init [] (or_introl eq_refl) Ht).
Qed.

(** * Witnesses *)

Lemma rate_limit_three_per_window_witness :
  rate_fresh s_demo "A" 0 /\
  let '(s1, _, r1) := sendSos expo_all_ok fcm_all_ok (fun _ => true) s_demo (Some "A") (Some "ev1") 0 in
  let '(s2, _, r2) := sendSos expo_all_ok fcm_all_ok (fun _ => true) s1 (Some "A") (Some "ev1") 1 in
  let '(s3, _, r3) := sendSos expo_all_ok fcm_all_ok (fun _ => true) s2 (Some "A") (Some "ev1") 2 in
  (sos_rate s1 !! "A" = Some (mkRateDoc (Some 0) 1) /\ r1 <> inl ResourceExhausted) /\
  (sos_rate s2 !! "A" = Some (mkRateDoc (Some 0) 2) /\ r2 <> inl ResourceExhausted) /\
  (sos_rate s3 !! "A" = Some (mkRateDoc (Some 0) 3) /\ r3 <> inl ResourceExhausted) /\
  sendSos expo_all_ok fcm_all_ok (fun _ => true) s3 (Some "A") (Some "ev1") 3
    = (s3, [], inl ResourceExhausted) /\
  (forall (s : Store) (ev : option string) (now : Z) (d : RateDoc) (w : Z),
     truthy (cleanString ev) = true ->
     sos_rate s !! "A" = Some d -> windowStart d = Some w -> windowMs <= now - w ->
     sos_rate (sendSos expo_all_ok fcm_all_ok (fun _ => true) s (Some "A") ev now).1.1 !! "A"
       = Some (mkRateDoc (Some now) 1) /\
     (sendSos expo_all_ok fcm_all_ok (fun _ => true) s (Some "A") ev now).2
       <> inl ResourceExhausted).
Proof.
  split; [exact I|].
  apply (rate_limit_three_per_window expo_all_ok fcm_all_ok (fun _ => true) s_demo "A"
           (Some "ev1") (Some "ev1") (Some "ev1") (Some "ev1") 0 1 2 3);
    try reflexivity; try exact I; vm_compute; reflexivity.
Defined.

Lemma failed_dispatch_consumes_rate_budget_witness :
  demo_notfound = (demo_notfound.1.1, demo_notfound.1.2, inl NotFound) /\
  exists d,
    rate_tx 100 (sos_rate s_demo !! "A") = inr d /\
    demo_notfound.1.1 = set_sos_rate s_demo (<["A" := d]> (sos_rate s_demo)) /\
    demo_notfound.1.2 = [] /\
    ((windowStart d = Some 100 /\ count d = 1) \/
     (exists d0, sos_rate s_demo !! "A" = Some d0 /\ count d = Z.max 0 (count d0) + 1)).
Proof.
  assert (H : demo_notfound = (demo_notfound.1.1, demo_notfound.1.2, inl NotFound))
    by (vm_compute; reflexivity).
  split; [exact H|].
  apply (failed_dispatch_consumes_rate_budget expo_all_ok fcm_all_ok (fun _ => true)
           s_demo demo_notfound.1.1 "A" (Some "nope") 100 demo_notfound.1.2 NotFound);
    [exact H | left; reflexivity].
Defined.

Lemma no_recipients_is_success_witness :
  (sendSos expo_all_ok fcm_all_ok (fun _ => true) (set_trust s_demo ∅ ∅)
     (Some "A") (Some "ev1") 100).1.2 = [] /\
  (sendSos expo_all_ok fcm_all_ok (fun _ => true) (set_trust s_demo ∅ ∅)
     (Some "A") (Some "ev1") 100).2 = inr (mkDispatchResult 0 0 0 0 0 0).
Proof.
  apply (no_recipients_is_success expo_all_ok fcm_all_ok (fun _ => true)
           (set_trust s_demo ∅ ∅) "A" (Some "ev1") 100 (mkRateDoc (Some 100) 1)
           (mkSosEvent (Some "A") (Some "help") (Some 3288) (Some 1319) (Some 0)));
    try (vm_compute; reflexivity).
  intros t c Hc.
  change (trusted (set_trust s_demo ∅ ∅)) with (∅ : gmap (string * string) ContactDoc) in Hc.
  rewrite lookup_empty in Hc. discriminate.
Defined.

Lemma cleanup_failure_fails_dispatch_witness :
  demo_commit_refused = (demo_commit_refused.1.1, demo_commit_refused.1.2, demo_commit_refused.2) /\
  (exists c, In (BatchCommit c) demo_commit_refused.1.2 /\ (fun _ : list DocRef => false) c = false) /\
  demo_commit_refused.2 = inl Internal.
Proof.
  assert (H : demo_commit_refused
              = (demo_commit_refused.1.1, demo_commit_refused.1.2, demo_commit_refused.2))
    by (vm_compute; reflexivity).
  assert (Hc : exists c, In (BatchCommit c) demo_commit_refused.1.2 /\
                 (fun _ : list DocRef => false) c = false)
    by (eexists; split; [vm_compute; right; right; left; reflexivity|reflexivity]).
  split; [exact H|]. split; [exact Hc|].
  apply (cleanup_failure_fails_dispatch expo_all_dead fcm_all_ok (fun _ => false) s_demo
           demo_commit_refused.1.1 (Some "A") (Some "ev1") 100 demo_commit_refused.1.2
           demo_commit_refused.2 H Hc).
Defined.

Lemma push_payload_noninterference_witness :
  Forall (payload_of_id "ev1")
    (sendSos expo_all_ok fcm_all_ok (fun _ => true) s_demo (Some "A") (Some "ev1") 100).1.2 /\
  (sendSos expo_all_ok fcm_all_ok (fun _ => true)
     (set_sos_events s_demo (<["ev1" := mkSosEvent (Some "A") (Some "help") (Some 3288) (Some 1319) (Some 0)]> (sos_events s_demo)))
     (Some "A") (Some "ev1") 100).1.2 =
  (sendSos expo_all_ok fcm_all_ok (fun _ => true)
     (set_sos_events s_demo (<["ev1" := mkSosEvent (Some "A") (Some "fire at home") (Some 1) (Some 2) (Some 0)]> (sos_events s_demo)))
     (Some "A") (Some "ev1") 100).1.2 /\
  (sendSos expo_all_ok fcm_all_ok (fun _ => true)
     (set_sos_events s_demo (<["ev1" := mkSosEvent (Some "A") (Some "help") (Some 3288) (Some 1319) (Some 0)]> (sos_events s_demo)))
     (Some "A") (Some "ev1") 100).2 =
  (sendSos expo_all_ok fcm_all_ok (fun _ => true)
     (set_sos_events s_demo (<["ev1" := mkSosEvent (Some "A") (Some "fire at home") (Some 1) (Some 2) (Some 0)]> (sos_events s_demo)))
     (Some "A") (Some "ev1") 100).2.
Proof.
  apply (push_payload_noninterference expo_all_ok fcm_all_ok (fun _ => true) s_demo
           (Some "A") (Some "ev1") 100
           (mkSosEvent (Some "A") (Some "help") (Some 3288) (Some 1319) (Some 0))
           (mkSosEvent (Some "A") (Some "fire at home") (Some 1) (Some 2) (Some 0))).
  reflexivity.
Defined.



Lemma trust_edges_mirrored_witness :
  mirrored empty_store /\
  mirrored (run_ops empty_store
    [OpCreate "A" (Some "a@example.com") (IdEmail "b@example.com") (Some "B") 10;
     OpRespond "B" "A" Accepted 20;
     OpCreate "A" None (IdPhone "+218912345678") (Some " C ") 30;
     OpRespond "C" "A" Rejected 40;
     OpCancel "A" "B"]).
Proof.
  assert (H : mirrored empty_store) by (intros o t; vm_compute; exact I).
  split; [exact H|].
  apply trust_edges_mirrored. exact H.
Defined.

Lemma create_request_outcome_witness :
  truthy "A" = true /\
  lookup_uid (Some " C ") = Some "C" /\
  exists s', createRequest s_demo "A" None (IdEmail "c@example.com") (Some " C ") 300 = inr s' /\
    option_map (fun c => (c_status c, c_requestedAt c, c_respondedAt c)) (trusted s' !! ("A", "C"))
      = Some ("pending", Some 300, None).
Proof.
  assert (Ho : truthy "A" = true) by reflexivity.
  assert (Hl : lookup_uid (Some " C ") = Some "C") by (vm_compute; reflexivity).
  split; [exact Ho|]. split; [exact Hl|].
  destruct (create_request_outcome s_demo "A" None (IdEmail "c@example.com") (Some " C ") 300 Ho)
    as (_ & _ & H).
  destruct (H "C" Hl ltac:(discriminate)) as (s' & E & T & _).
  exists s'. split; [exact E | exact T].
Defined.

Lemma set_phone_number_semantics_witness :
  truthy "A" = true /\
  normalizePhone (Some "00218912345678") = Some "+218912345678" /\
  (setMyPhoneNumber empty_store (Some "A") (Some "00218912345678") 5).2 = inr "+218912345678".
Proof.
  assert (Hu : truthy "A" = true) by reflexivity.
  assert (Hn : normalizePhone (Some "00218912345678") = Some "+218912345678")
    by (vm_compute; reflexivity).
  split; [exact Hu|]. split; [exact Hn|].
  destruct (set_phone_number_semantics empty_store "A" (Some "00218912345678") "+218912345678" 5 Hu Hn)
    as (_ & _ & H3 & _).
  apply H3; left; vm_compute; reflexivity.
Defined.

Lemma cleanup_batches_witness :
  In (BatchCommit [("B", "d1"); ("B", "d2")])
    (cleanup (fun _ => true) (devices s_demo) [("tokB", [("B", "d1"); ("B", "d2")])] ["tokB"]).1.2 /\
  (1 <= length [("B", "d1"); ("B", "d2")] <= 450)%nat.
Proof.
  assert (H : In (BatchCommit [("B", "d1"); ("B", "d2")])
    (cleanup (fun _ => true) (devices s_demo) [("tokB", [("B", "d1"); ("B", "d2")])] ["tokB"]).1.2)
    by (vm_compute; left; reflexivity).
  split; [exact H|].
  apply (cleanup_batches (fun _ => true) (devices s_demo) [("tokB", [("B", "d1"); ("B", "d2")])]
           ["tokB"] _ H).
Defined.

Lemma rate_tx_bounds_witness :
  rate_tx 100 (Some (mkRateDoc None (-5))) = inr (mkRateDoc (Some 100) 1) /\
  1 <= count (mkRateDoc (Some 100) 1) <= 3.
Proof.
  assert (H : rate_tx 100 (Some (mkRateDoc None (-5))) = inr (mkRateDoc (Some 100) 1))
    by reflexivity.
  split; [exact H|].
  apply (rate_tx_bounds 100 (Some (mkRateDoc None (-5))) _ H).
Defined.

Lemma sendSos_requires_owner_witness :
  demo_ok = (demo_ok.1.1, demo_ok.1.2, demo_ok.2) /\
  exists uid event, Some "A" = Some uid /\ truthy uid = true /\
    sos_events s_demo !! cleanString (Some "ev1") = Some event /\
    cleanString (senderUid event) = uid.
Proof.
  assert (H : demo_ok = (demo_ok.1.1, demo_ok.1.2, demo_ok.2)) by (vm_compute; reflexivity).
  split; [exact H|].
  apply (sendSos_requires_owner expo_all_ok fcm_all_ok (fun _ => true) s_demo (Some "A")
           (Some "ev1") 100 demo_ok.1.1 demo_ok.1.2 demo_ok.2 H).
  left. vm_compute. discriminate.
Defined.

Lemma sendSos_result_counters_witness :
  demo_ok = (demo_ok.1.1, demo_ok.1.2, inr (mkDispatchResult 2 1 2 1 1 0)) /\
  exists uid, Some "A" = Some uid /\
    recipients (mkDispatchResult 2 1 2 1 1 0)
      = Z.of_nat (length (accepted_contacts (trusted s_demo) uid)).
Proof.
  assert (H : demo_ok = (demo_ok.1.1, demo_ok.1.2, inr (mkDispatchResult 2 1 2 1 1 0)))
    by (vm_compute; reflexivity).
  split; [exact H|].
  destruct (sendSos_result_counters expo_all_ok fcm_all_ok (fun _ => true) s_demo (Some "A")
              (Some "ev1") 100 demo_ok.1.1 demo_ok.1.2 _ H) as (uid & Ha & Hr & _).
  exists uid. split; [exact Ha|exact Hr].
Defined.

Lemma normalizePhone_idempotent_witness :
  normalizePhone (Some " 0021612345678 ") = Some "+21612345678" /\
  normalizePhone (Some "+21612345678") = Some "+21612345678".
Proof.
  assert (H : normalizePhone (Some " 0021612345678 ") = Some "+21612345678") by (vm_compute; reflexivity).
  split; [exact H|].
  apply (proj2 (normalizePhone_idempotent _ _ H)).
Defined.

Lemma phone_lookup_roundtrip_witness :
  setMyPhoneNumber s_demo (Some "A") (Some "+21612345678") 7
    = ((setMyPhoneNumber s_demo (Some "A") (Some "+21612345678") 7).1, inr "+21612345678") /\
  lookupUserByPhone (setMyPhoneNumber s_demo (Some "A") (Some "+21612345678") 7).1
    (Some "B") (Some "+21612345678") = inr (trim "A").
Proof.
  assert (H : setMyPhoneNumber s_demo (Some "A") (Some "+21612345678") 7
    = ((setMyPhoneNumber s_demo (Some "A") (Some "+21612345678") 7).1, inr "+21612345678"))
    by (vm_compute; reflexivity).
  split; [exact H|].
  apply (phone_lookup_roundtrip s_demo "A" (Some "+21612345678") 7 _ "+21612345678" "B" H).
  reflexivity.
Defined.

Lemma phone_bound_preserved_witness :
  phone_bound s_demo /\ index_ok s_demo /\
  phone_bound (setMyPhoneNumber s_demo (Some "A") (Some "+21612345678") 7).1.
Proof.
  assert (Hb : phone_bound s_demo).
  { intros u p Hu. vm_compute in Hu. discriminate. }
  assert (Hi : index_ok s_demo).
  { intros p d u Hp. vm_compute in Hp. discriminate. }
  split; [exact Hb|]. split; [exact Hi|].
  apply (phone_bound_preserved s_demo (Some "A") (Some "+21612345678") 7 _
           (setMyPhoneNumber s_demo (Some "A") (Some "+21612345678") 7).2 Hb Hi).
  - intros uid Huid. injection Huid as <-. reflexivity.
  - reflexivity.
Defined.

Lemma respond_sets_recipient_witness :
  respond s_demo "B" "A" Rejected 5 = Some (default s_demo (respond s_demo "B" "A" Rejected 5)) /\
  ~ In "B" (accepted_contacts (trusted (default s_demo (respond s_demo "B" "A" Rejected 5))) "A").
Proof.
  assert (H : respond s_demo "B" "A" Rejected 5
              = Some (default s_demo (respond s_demo "B" "A" Rejected 5)))
    by (vm_compute; reflexivity).
  split; [exact H|].
  intros Hin. apply (proj1 (respond_sets_recipient _ _ _ _ _ _ H)) in Hin. discriminate.
Defined.

Lemma cancel_removes_recipient_witness :
  truthy "A" = true /\ respond (cancelRequest s_demo "A" "B") "B" "A" Accepted 9 = None.
Proof.
  assert (H : truthy "A" = true) by reflexivity.
  split; [exact H|].
  apply (cancel_removes_recipient s_demo "A" "B" Accepted 9 H).
Defined.

Lemma create_request_not_recipient_witness :
  createRequest s_demo "A" None (IdPhone "+21612345678") (Some " B ") 9
    = inr (match createRequest s_demo "A" None (IdPhone "+21612345678") (Some " B ") 9 with
           | inr s' => s' | inl _ => s_demo end) /\
  exists t, lookup_uid (Some " B ") = Some t /\ t <> "A".
Proof.
  assert (H : createRequest s_demo "A" None (IdPhone "+21612345678") (Some " B ") 9
    = inr (match createRequest s_demo "A" None (IdPhone "+21612345678") (Some " B ") 9 with
           | inr s' => s' | inl _ => s_demo end)) by (vm_compute; reflexivity).
  split; [exact H|].
  destruct (create_request_not_recipient _ _ _ _ _ _ _ H) as (t & Ht & Hne & _).
  exists t. split; [exact Ht|exact Hne].
Defined.

Lemma incoming_row_matches_recipients_witness :
  incoming s_demo !! ("B", "A") = Some (mkRequestDoc "accepted" (Some 0) (Some 1) "A" "B" None) /\
  In "B" (accepted_contacts (trusted s_demo) "A").
Proof.
  assert (Hq : incoming s_demo !! ("B", "A")
               = Some (mkRequestDoc "accepted" (Some 0) (Some 1) "A" "B" None))
    by (vm_compute; reflexivity).
  assert (Hm : mirrored s_demo).
  { intros o t. unfold edge_mirrored. simpl.
    destruct (decide ((o, t) = ("A", "B"))) as [E|E].
    - injection E as -> ->. vm_compute. auto.
    - rewrite lookup_singleton_ne by congruence.
      rewrite lookup_singleton_ne by (intros E'; apply E; injection E' as -> ->; done).
      done. }
  split; [exact Hq|].
  apply (incoming_row_matches_recipients s_demo "A" "B" _ Hm Hq); reflexivity.
Defined.

Lemma shake_trigger_needs_two_shakes_witness :
  In 20500 (shake_run shake_init
    [mkShakeReading true false true 20000; mkShakeReading true false true 20500]).2 /\
  exists pre r1 mid r2 post,
    [mkShakeReading true false true 20000; mkShakeReading true false true 20500]
      = pre ++ r1 :: mid ++ r2 :: post /\ nowMs r2 = 20500.
Proof.
  assert (H : In 20500 (shake_run shake_init
    [mkShakeReading true false true 20000; mkShakeReading true false true 20500]).2)
    by (vm_compute; left; reflexivity).
  split; [exact H|].
  destruct (shake_trigger_needs_two_shakes _ _ H) as (pre & r1 & mid & r2 & post & E & _ & _ & Hn & _).
  exists pre, r1, mid, r2, post. split; [exact E|exact Hn].
Defined.
